(** * Block filter index (src/index/blockfilterindex.cpp)

    A shallow embedding of the SQLite-backed block filter index: the
    constructor, the four lookup methods and the process-wide registry,
    followed by the properties of the specification they do or do not
    satisfy. *)

From Stdlib Require Import ZArith Lia.
From Stdlib.Strings Require Import Byte.
From stdpp Require Import gmap strings list fin_maps sorting.

Set Warnings "-register-all".
Open Scope Z_scope.

(** ** Data model *)

(** [uint256] values (block hashes, filter hashes) are 256-bit integers;
    only their equality is used. Heights are C++ [int]s, read here as
    integers; the arithmetic on them stays within [int] for the heights a
    chain has. *)
Definition uint256 := Z.

(** [BlockFilterType] is a [uint8_t]-backed enumeration declared in
    blockfilter.h. *)
Definition BlockFilterType := Z.

(** One row of the table
    [(height INTEGER, blockHash BLOB NOT NULL, filterHash BLOB NOT NULL,
      filter BLOB NOT NULL, PRIMARY KEY(height, blockHash))]. *)
Record Row := mkRow {
  row_height : option Z;
  row_blockHash : uint256;
  row_filterHash : uint256;
  row_filter : list byte
}.

(** Modelled from the spec: [CBlockIndex] is declared in chain.h, which is
    not among the sources. A chain node exposes its height, its block hash
    and its parent; [pprev] is a pointer, null at the root of the chain. *)
Inductive CBlockIndex := mkBlockIndex {
  nHeight : Z;
  GetBlockHash : uint256;
  pprev : option CBlockIndex
}.

(** [BlockFilter], declared in blockfilter.h, which is not among the
    sources: the object built by [BlockFilter(filter_type, block_hash,
    filter)] from its three arguments. *)
Record BlockFilter := mkBlockFilter {
  GetFilterType : BlockFilterType;
  m_block_hash : uint256;
  m_filter : list byte
}.

(** The object left behind by [std::move(hit->second)]: the hash is a plain
    array and is copied, the encoded filter vector is taken away. *)
Definition moved_from (bf : BlockFilter) : BlockFilter :=
  {| GetFilterType := GetFilterType bf;
     m_block_hash := m_block_hash bf;
     m_filter := [] |}.

(** Statements sent to the database through [db << ...]. *)
Inductive Stmt :=
| PragmaCacheSize (kb : Z)
| PragmaSynchronousOff
| PragmaJournalModeWal
| PragmaTempStoreMemory
| PragmaCaseSensitiveLike
| CreateTableIfNotExists (table : string)
| DeleteFrom (table : string)
| Begin
| SelectHeightBetween (table : string) (lo hi : Z)
| SelectFilterByNullHeight (table : string) (hash : uint256)
| SelectFilterHash (table : string) (height : Z) (hash : uint256).

(** A database connection ([sqlite::database], from sqlite.h): the tables
    it sees, whether a transaction is open on it, the statements that were
    executed on it, oldest first, and whether it was opened on ":memory:"
    (a private database) or on the database file, which every connection
    opened on it shares. A table is the list of its rows. *)
Record sqlite_database := mkDb {
  db_tables : gmap string (list Row);
  db_in_transaction : bool;
  db_executed : list Stmt;
  db_in_memory : bool
}.

(** Lines written by [error(...)], which logs its message and returns
    false. *)
Inductive LogMsg :=
| StartHeightNegative (func : string) (start_height : Z)
| StartHeightAboveStop (func : string) (start_height stop_height : Z).

(** The members of a [BlockFilterIndex]. *)
Record BlockFilterIndex := mkIndex {
  m_filter_type : BlockFilterType;
  m_filter_name : string;
  db : sqlite_database
}.

(** What a method call sees and leaves behind: the object it is called on
    and the debug log. *)
Record World := mkWorld {
  this : BlockFilterIndex;
  debug_log : list LogMsg
}.

(** ** Outcomes *)

Inductive fault :=
| NullDeref                       (* member read through a null CBlockIndex* *)
| EmptyVectorIndex                (* [v[0]] on an empty vector *)
| NoSuchTable (table : string)    (* sqlite_exception: no such table *)
| NestedTransaction (* sqlite_exception: BEGIN inside a transaction *)
| InvalidArgument (what : string) (* std::invalid_argument *)
| OutOfFuel.                      (* the loop did not finish within the fuel *)

Inductive outcome (A : Type) :=
| Returned (a : A)
| Fault (f : fault).
Arguments Returned {A} a.
Arguments Fault {A} f.

(** State and fault monad; the state survives a fault. *)
Definition M (S A : Type) : Type := S -> outcome A * S.

Definition ret {S A} (a : A) : M S A := fun s => (Returned a, s).
Definition raise {S A} (f : fault) : M S A := fun s => (Fault f, s).
Definition bind {S A B} (m : M S A) (k : A -> M S B) : M S B :=
  fun s => match m s with
           | (Returned a, s') => k a s'
           | (Fault f, s') => (Fault f, s')
           end.

#[global] Instance M_ret {S} : MRet (M S) := fun A => @ret S A.
#[global] Instance M_bind {S} : MBind (M S) := fun A B k m => bind m k.

(** ** The SQL statements *)

Definition height_between (lo hi : Z) (r : Row) : bool :=
  match row_height r with
  | Some h => (lo <=? h) && (h <=? hi)
  | None => false
  end.

Definition height_key (r : Row) : Z := default 0 (row_height r).

(** [ORDER BY height DESC]. SQL leaves the order of rows of equal height
    open; SQLite serves this query from the index of the primary key
    [(height, blockHash)] read backwards, which gives them by descending
    [blockHash]. [row_first a b]: row [a] comes out before row [b]. *)
Definition row_first (a b : Row) : bool :=
  (height_key b <? height_key a) ||
  ((height_key b =? height_key a) && (row_blockHash b <? row_blockHash a)).

Fixpoint insert_desc (r : Row) (rs : list Row) : list Row :=
  match rs with
  | [] => [r]
  | r' :: rs' =>
      if row_first r' r then r' :: insert_desc r rs'
      else r :: rs
  end.

Definition order_by_height_desc (rs : list Row) : list Row :=
  foldr insert_desc [] rs.

(** [SELECT height, blockHash, filter FROM t WHERE height BETWEEN lo AND hi
     ORDER BY height DESC] *)
Definition select_height_between (t : list Row) (lo hi : Z)
  : list (Z * uint256 * list byte) :=
  (fun r => (height_key r, row_blockHash r, row_filter r))
    <$> order_by_height_desc (List.filter (height_between lo hi) t).

Definition null_height_and_hash (hash : uint256) (r : Row) : bool :=
  match row_height r with
  | None => row_blockHash r =? hash
  | Some _ => false
  end.

(** [SELECT filter FROM t WHERE height IS NULL AND blockHash = hash LIMIT 1] *)
Definition select_filter_by_null_height (t : list Row) (hash : uint256)
  : list (list byte) :=
  row_filter <$> take 1 (List.filter (null_height_and_hash hash) t).

Definition height_or_null_and_hash (height : Z) (hash : uint256) (r : Row) : bool :=
  match row_height r with
  | None => row_blockHash r =? hash
  | Some h => (h =? height) && (row_blockHash r =? hash)
  end.

(** [SELECT filterHash FROM t WHERE (height = ? OR height IS NULL)
     AND blockHash = ? LIMIT 1] *)
Definition select_filter_hash (t : list Row) (height : Z) (hash : uint256)
  : list uint256 :=
  row_filterHash <$> take 1 (List.filter (height_or_null_and_hash height hash) t).

Definition record_stmt (s : Stmt) (d : sqlite_database) : sqlite_database :=
  {| db_tables := db_tables d;
     db_in_transaction := db_in_transaction d;
     db_executed := db_executed d ++ [s];
     db_in_memory := db_in_memory d |}.

Definition with_db (w : World) (d : sqlite_database) : World :=
  {| this := {| m_filter_type := m_filter_type (this w);
                m_filter_name := m_filter_name (this w);
                db := d |};
     debug_log := debug_log w |}.

(** Run a [SELECT] on the object's own table. *)
Definition run_select {A} (s : string -> Stmt) (rows : list Row -> list A)
  : M World (list A) :=
  fun w =>
    let name := m_filter_name (this w) in
    let w' := with_db w (record_stmt (s name) (db (this w))) in
    match db_tables (db (this w)) !! name with
    | Some t => (Returned (rows t), w')
    | None => (Fault (NoSuchTable name), w')
    end.

(** [error(fmt, ...)]: write the line, return false. *)
Definition error (msg : LogMsg) : M World bool :=
  fun w => (Returned false,
            {| this := this w; debug_log := debug_log w ++ [msg] |}).

(** ** The lookups *)

Definition func_LookupFilterRange : string := "LookupFilterRange".
Definition func_LookupFilterHashRange : string := "LookupFilterHashRange".

(** [temp.emplace(height, BlockFilter(m_filter_type, hash, filter))] for
    each row of the bulk query: the first row of a height is kept. *)
Definition emplace_row (ft : BlockFilterType) (temp : gmap Z BlockFilter)
    (row : Z * uint256 * list byte) : gmap Z BlockFilter :=
  match row with
  | (height, hash, filter) =>
      match temp !! height with
      | Some _ => temp
      | None => <[height := mkBlockFilter ft hash filter]> temp
      end
  end.

(** [hit != temp.end() && hit->second.GetBlockHash() == stop_index->GetBlockHash()] *)
Definition find_hit (temp : gmap Z BlockFilter) (node : CBlockIndex)
  : option BlockFilter :=
  match temp !! nHeight node with
  | Some hit => if m_block_hash hit =? GetBlockHash node then Some hit else None
  | None => None
  end.

(** The [while (start_height <= stop_index->nHeight)] loop of
    [LookupFilterRange]. On a hit the record is pushed and the loop
    [continue]s, which goes back to the test without the step to [pprev].
    The loop ends at the first node whose height is below [start_height];
    that node is returned with the collected records. *)
Fixpoint LookupFilterRange_loop (fuel : nat) (start_height : Z)
    (stop_index : option CBlockIndex) (temp : gmap Z BlockFilter)
    (filters_out : list BlockFilter)
  : M World (list BlockFilter * CBlockIndex) :=
  match fuel with
  | O => raise OutOfFuel
  | S fuel' =>
      match stop_index with
      | None => raise NullDeref
      | Some node =>
          if start_height <=? nHeight node then
            match find_hit temp node with
            | Some hit =>
                LookupFilterRange_loop fuel' start_height (Some node)
                  (<[nHeight node := moved_from hit]> temp)
                  (filters_out ++ [hit])
            | None =>
                fun w =>
                  (rows ← run_select
                     (fun name => SelectFilterByNullHeight name (GetBlockHash node))
                     (fun t => select_filter_by_null_height t (GetBlockHash node));
                   LookupFilterRange_loop fuel' start_height (pprev node) temp
                     (filters_out ++
                        (mkBlockFilter (m_filter_type (this w)) (GetBlockHash node)
                           <$> rows))) w
            end
          else ret (filters_out, node)
      end
  end.

(** [vector::size() == int]: the [int] is converted to [size_t]. *)
Definition size_eq_int (size : nat) (i : Z) : bool :=
  Z.of_nat size =? i mod 2 ^ 64.

Definition LookupFilterRange (fuel : nat) (start_height : Z)
    (stop_index : CBlockIndex) (filters_out : list BlockFilter)
  : M World (bool * list BlockFilter) :=
  if start_height <? 0 then
    b ← error (StartHeightNegative func_LookupFilterRange start_height);
    ret (b, filters_out)
  else if start_height >? nHeight stop_index then
    b ← error (StartHeightAboveStop func_LookupFilterRange start_height
                 (nHeight stop_index));
    ret (b, filters_out)
  else
    fun w =>
      (rows ← run_select
         (fun name => SelectHeightBetween name start_height (nHeight stop_index))
         (fun t => select_height_between t start_height (nHeight stop_index));
       let temp := foldl (emplace_row (m_filter_type (this w))) ∅ rows in
       r ← LookupFilterRange_loop fuel start_height (Some stop_index) temp
             filters_out;
       ret (size_eq_int (length (fst r)) (nHeight (snd r) - start_height + 1),
            fst r)) w.

(** The loop of [LookupFilterHashRange]: every round steps to [pprev]. *)
Fixpoint LookupFilterHashRange_loop (start_height : Z) (node : CBlockIndex)
    (hashes_out : list uint256) : M World (list uint256 * CBlockIndex) :=
  if start_height <=? nHeight node then
    rows ← run_select
      (fun name => SelectFilterHash name (nHeight node) (GetBlockHash node))
      (fun t => select_filter_hash t (nHeight node) (GetBlockHash node));
    match pprev node with
    | None => raise NullDeref
    | Some prev => LookupFilterHashRange_loop start_height prev (hashes_out ++ rows)
    end
  else ret (hashes_out, node).

Definition LookupFilterHashRange (start_height : Z) (stop_index : CBlockIndex)
    (hashes_out : list uint256) : M World (bool * list uint256) :=
  if start_height <? 0 then
    b ← error (StartHeightNegative func_LookupFilterHashRange start_height);
    ret (b, hashes_out)
  else if start_height >? nHeight stop_index then
    b ← error (StartHeightAboveStop func_LookupFilterHashRange start_height
                 (nHeight stop_index));
    ret (b, hashes_out)
  else
    r ← LookupFilterHashRange_loop start_height stop_index hashes_out;
    ret (size_eq_int (length (fst r)) (nHeight (snd r) - start_height + 1),
         fst r).

(** [filters[0]] *)
Definition front {S A} (v : list A) : M S A :=
  match v with
  | x :: _ => ret x
  | [] => raise EmptyVectorIndex
  end.

(** [LookupFilter] and [LookupFilterHeader] call the range lookup on a
    fresh vector. [None] is the [false] return, which leaves the output
    argument alone; [Some] is the [true] return with the value stored in
    it. *)
Definition LookupFilter (fuel : nat) (block_index : CBlockIndex)
  : M World (option BlockFilter) :=
  r ← LookupFilterRange fuel (nHeight block_index) block_index [];
  if negb (fst r) then ret None
  else f ← front (snd r); ret (Some f).

Definition LookupFilterHeader (block_index : CBlockIndex)
  : M World (option uint256) :=
  r ← LookupFilterHashRange (nHeight block_index) block_index [];
  if negb (fst r) then ret None
  else h ← front (snd r); ret (Some h).

(** ** Construction *)

(** Execute a statement that returns no rows. *)
Definition exec (s : Stmt) : M sqlite_database unit :=
  fun d =>
    let d' := record_stmt s d in
    match s with
    | CreateTableIfNotExists name =>
        match db_tables d !! name with
        | Some _ => (Returned (), d')
        | None =>
            (Returned (),
             {| db_tables := <[name := []]> (db_tables d);
                db_in_transaction := db_in_transaction d;
                db_executed := db_executed d';
                db_in_memory := db_in_memory d |})
        end
    | DeleteFrom name =>
        match db_tables d !! name with
        | Some _ =>
            (Returned (),
             {| db_tables := <[name := []]> (db_tables d);
                db_in_transaction := db_in_transaction d;
                db_executed := db_executed d';
                db_in_memory := db_in_memory d |})
        | None => (Fault (NoSuchTable name), d')
        end
    | Begin =>
        if db_in_transaction d then (Fault NestedTransaction, d')
        else
          (Returned (),
           {| db_tables := db_tables d;
              db_in_transaction := true;
              db_executed := db_executed d';
              db_in_memory := db_in_memory d |})
    | _ => (Returned (), d')
    end.

(** [db(f_memory ? ":memory:" : <datadir>/block_filter.sqlite, sharedConfig)]:
    a new connection, on an empty private database or on the file. *)
Definition open_database (f_memory : bool) (file : gmap string (list Row))
  : sqlite_database :=
  {| db_tables := if f_memory then ∅ else file;
     db_in_transaction := false;
     db_executed := [];
     db_in_memory := f_memory |}.

Definition when {S} (b : bool) (m : M S unit) : M S unit :=
  if b then m else ret ().

Section Construction.

(** [BlockFilterTypeName] is declared in blockfilter.h; it gives the empty
    string for a filter type it does not know. *)
Variable BlockFilterTypeName : BlockFilterType -> string.

(** The statements of the constructor body, after the name check. *)
Definition constructor_body (name : string) (n_cache_size : Z) (f_wipe : bool)
  : M sqlite_database unit :=
  _ ← exec (PragmaCacheSize (- Z.shiftr n_cache_size 10));
  _ ← exec PragmaSynchronousOff;
  _ ← exec PragmaJournalModeWal;
  _ ← exec PragmaTempStoreMemory;
  _ ← exec PragmaCaseSensitiveLike;
  _ ← exec (CreateTableIfNotExists name);
  _ ← when f_wipe (exec (DeleteFrom name));
  exec Begin.

(** The constructor, run against the content of the database file. The
    statements before [BEGIN] run in autocommit mode, so a connection on
    the file leaves its tables in the file. *)
Definition BlockFilterIndex_new (filter_type : BlockFilterType)
    (n_cache_size : Z) (f_memory f_wipe : bool)
  : M (gmap string (list Row)) BlockFilterIndex :=
  fun file =>
    let db0 := open_database f_memory file in
    let name := BlockFilterTypeName filter_type in
    if String.eqb name EmptyString then
      (Fault (InvalidArgument "unknown filter_type"), file)
    else
      let r := constructor_body name n_cache_size f_wipe db0 in
      let file' := if f_memory then file else db_tables (snd r) in
      match fst r with
      | Returned _ => (Returned (mkIndex filter_type name (snd r)), file')
      | Fault f => (Fault f, file')
      end.

End Construction.

(** ** The registry *)

(** The process state the registry functions act on: the map
    [g_filter_indexes] and the database file. *)
Record Globals := mkGlobals {
  g_filter_indexes : gmap Z BlockFilterIndex;
  block_filter_sqlite : gmap string (list Row)
}.

(** What an instance sees once the database file holds [file]: a
    connection opened on the file reads the file, a connection on
    ":memory:" its own database. *)
Definition see_file (file : gmap string (list Row)) (index : BlockFilterIndex)
  : BlockFilterIndex :=
  if db_in_memory (db index) then index
  else
    {| m_filter_type := m_filter_type index;
       m_filter_name := m_filter_name index;
       db := {| db_tables := file;
                db_in_transaction := db_in_transaction (db index);
                db_executed := db_executed (db index);
                db_in_memory := false |} |}.

Section Registry.

Variable BlockFilterTypeName : BlockFilterType -> string.

Definition GetBlockFilterIndex (filter_type : BlockFilterType) (g : Globals)
  : option BlockFilterIndex :=
  g_filter_indexes g !! filter_type.

(** [std::map::emplace] may build the element before it looks for the
    key, and destroy it again when the key is taken; the standard leaves
    this to the library (libstdc++ and libc++ build it first). *)
Variable emplace_constructs_first : bool.

(** [g_filter_indexes.emplace(piecewise_construct, ...)]. When the key is
    taken and the element was built all the same, its constructor has run
    on the database file (unless [f_memory]); the instance registered
    under this filter type, whose connection is on that file, reads the
    tables as the constructor left them. Instances of other filter types
    read other tables and are left as they are. *)

Definition InitBlockFilterIndex (filter_type : BlockFilterType)
    (n_cache_size : Z) (f_memory f_wipe : bool) : M Globals bool :=
  fun g =>
    let construct :=
      BlockFilterIndex_new BlockFilterTypeName filter_type n_cache_size
        f_memory f_wipe (block_filter_sqlite g) in
    match g_filter_indexes g !! filter_type with
    | Some registered =>
        if emplace_constructs_first then
          match fst construct with
          | Returned _ =>
              let registered' :=
                if f_memory then registered
                else see_file (snd construct) registered in
              (Returned false,
               mkGlobals (<[filter_type := registered']> (g_filter_indexes g))
                 (snd construct))
          | Fault f => (Fault f, mkGlobals (g_filter_indexes g) (snd construct))
          end
        else (Returned false, g)
    | None =>
        match fst construct with
        | Returned index =>
            (Returned true,
             mkGlobals (<[filter_type := index]> (g_filter_indexes g))
               (snd construct))
        | Fault f => (Fault f, mkGlobals (g_filter_indexes g) (snd construct))
        end
    end.

(** [return g_filter_indexes.erase(filter_type);] *)
Definition DestroyBlockFilterIndex (filter_type : BlockFilterType)
  : M Globals bool :=
  fun g =>
    (Returned (bool_decide (is_Some (g_filter_indexes g !! filter_type))),
     mkGlobals (delete filter_type (g_filter_indexes g)) (block_filter_sqlite g)).

Definition DestroyAllBlockFilterIndexes : M Globals unit :=
  fun g => (Returned (), mkGlobals ∅ (block_filter_sqlite g)).

End Registry.

(** ** Notions used to state the properties *)

(** A chain whose root has height 0 and whose heights grow by one at every
    block. *)
Fixpoint well_formed (node : CBlockIndex) : bool :=
  match pprev node with
  | None => nHeight node =? 0
  | Some prev => (nHeight node =? nHeight prev + 1) && well_formed prev
  end.

(** Number of blocks from [node] down to the root. *)
Fixpoint chain_length (node : CBlockIndex) : nat :=
  match pprev node with
  | None => 1
  | Some prev => S (chain_length prev)
  end.

(** The table the object reads. *)
Definition table_of (w : World) : option (list Row) :=
  db_tables (db (this w)) !! m_filter_name (this w).

(** The tables the object's connection sees. *)
Definition tables_in (w : World) : gmap string (list Row) :=
  db_tables (db (this w)).

(** The map [temp] built from the bulk query. *)
Definition bulk_temp (ft : BlockFilterType) (t : list Row) (lo hi : Z)
  : gmap Z BlockFilter :=
  foldl (emplace_row ft) ∅ (select_height_between t lo hi).

(** What the point queries of the hash walk yield, from [node] down to
    [start_height], in the order of the walk. *)
Fixpoint walk_hashes (t : list Row) (start_height : Z) (node : CBlockIndex)
  : list uint256 :=
  if start_height <=? nHeight node then
    select_filter_hash t (nHeight node) (GetBlockHash node) ++
    match pprev node with
    | None => []
    | Some prev => walk_hashes t start_height prev
    end
  else [].

(** What the fallback queries of the filter walk yield when no block of the
    walk is found in [temp]. *)
Fixpoint walk_filters (ft : BlockFilterType) (t : list Row) (start_height : Z)
    (node : CBlockIndex) : list BlockFilter :=
  if start_height <=? nHeight node then
    (mkBlockFilter ft (GetBlockHash node)
       <$> select_filter_by_null_height t (GetBlockHash node)) ++
    match pprev node with
    | None => []
    | Some prev => walk_filters ft t start_height prev
    end
  else [].

(** The loop test [start_height <= nHeight] holds at every block from
    [node] down to the root: the walk is not stopped before the root. *)
Fixpoint reaches_root (start_height : Z) (node : CBlockIndex) : bool :=
  (start_height <=? nHeight node) &&
  match pprev node with
  | None => true
  | Some prev => reaches_root start_height prev
  end.

(** No block of the walk from [node] down to [start_height] is found in
    [temp]. *)
Fixpoint misses (temp : gmap Z BlockFilter) (start_height : Z)
    (node : CBlockIndex) : bool :=
  if start_height <=? nHeight node then
    match find_hit temp node with
    | Some _ => false
    | None =>
        match pprev node with
        | None => true
        | Some prev => misses temp start_height prev
        end
    end
  else true.

(** The part of the world no lookup may change: the object's type and name,
    the tables and the transaction state. *)
Definition frame (w w' : World) : Prop :=
  m_filter_type (this w') = m_filter_type (this w) /\
  m_filter_name (this w') = m_filter_name (this w) /\
  db_tables (db (this w')) = db_tables (db (this w)) /\
  db_in_transaction (db (this w')) = db_in_transaction (db (this w)).

Definition preserves {A} (m : M World A) : Prop :=
  forall w, frame w (snd (m w)).

(** The line [error] writes for a rejected range. *)
Definition invalid_range (func : string) (start_height : Z)
    (stop_index : CBlockIndex) : LogMsg :=
  if start_height <? 0 then StartHeightNegative func start_height
  else StartHeightAboveStop func start_height (nHeight stop_index).

(** The dual-key invariant of a table: at most one record per block hash,
    and no two records at the same non-null height. *)
Definition dual_key_invariant (t : list Row) : Prop :=
  NoDup (row_blockHash <$> t) /\ NoDup (omap row_height t).

Definition tables_ok (tables : gmap string (list Row)) : Prop :=
  map_Forall (fun _ t => dual_key_invariant t) tables.

(** ** A chain with a reorganisation at height 1

    [block_X] was active at height 1 and has been displaced by [block_Y];
    [block_Z] is a block the table has no record of. *)
Definition genesis : CBlockIndex := mkBlockIndex 0 10 None.
Definition block_X : CBlockIndex := mkBlockIndex 1 21 (Some genesis).
Definition block_Y : CBlockIndex := mkBlockIndex 1 22 (Some genesis).
Definition block_Y2 : CBlockIndex := mkBlockIndex 2 32 (Some block_Y).
Definition block_Z : CBlockIndex := mkBlockIndex 1 23 (Some genesis).

Definition row_genesis : Row := mkRow (Some 0) 10 100 [x00].
Definition row_X : Row := mkRow None 21 121 [x01].
Definition row_Y : Row := mkRow (Some 1) 22 122 [x02].
Definition row_Y2 : Row := mkRow None 32 132 [x03].
Definition reorg_table : list Row := [row_genesis; row_X; row_Y; row_Y2].

Definition filter_X : BlockFilter := mkBlockFilter 0 21 [x01].

(** An index object of type 0 named "basic" over a given table, its
    connection on the database file. *)
Definition index_on (t : list Row) : World :=
  {| this := {| m_filter_type := 0;
                m_filter_name := "basic";
                db := {| db_tables := {[ "basic" := t ]};
                         db_in_transaction := true;
                         db_executed := [];
                         db_in_memory := false |} |};
     debug_log := [] |}.

(** A [BlockFilterTypeName] that knows type 0 only. *)
Definition basic_only (filter_type : BlockFilterType) : string :=
  if filter_type =? 0 then "basic" else EmptyString.

(** The tables a connection sees once the constructor body has run: the
    object's table is there, emptied when the wipe flag is set. *)
Definition tables_after (name : string) (f_wipe : bool)
    (tables : gmap string (list Row)) : gmap string (list Row) :=
  <[name := if f_wipe then [] else default [] (tables !! name)]> tables.

(** The statements the constructor body runs, in order. *)
Definition statements_of (name : string) (n_cache_size : Z) (f_wipe : bool)
  : list Stmt :=
  [PragmaCacheSize (- Z.shiftr n_cache_size 10); PragmaSynchronousOff;
   PragmaJournalModeWal; PragmaTempStoreMemory; PragmaCaseSensitiveLike;
   CreateTableIfNotExists name]
  ++ (if f_wipe then [DeleteFrom name] else []) ++ [Begin].

(** Nothing registered, no table in the file. *)
Definition empty_registry : Globals :=
  {| g_filter_indexes := ∅; block_filter_sqlite := ∅ |}.

(** Type 0 registered over the file that holds [reorg_table]. *)
Definition basic_registered : Globals :=
  {| g_filter_indexes := {[ 0 := this (index_on reorg_table) ]};
     block_filter_sqlite := {[ "basic" := reorg_table ]} |}.

(** ** Visiting the registry *)

(** The entries of [g_filter_indexes] in the order a [std::map] is iterated:
    by ascending key. *)
Definition key_le (a b : Z * BlockFilterIndex) : Prop := fst a <= fst b.

#[global] Instance key_le_dec : RelDecision key_le.
Proof. intros a b. unfold key_le. apply _. Defined.

Definition entries_by_type (indexes : gmap Z BlockFilterIndex)
  : list (Z * BlockFilterIndex) :=
  merge_sort key_le (map_to_list indexes).

(** [for (auto& entry : g_filter_indexes) fn(entry.second);] for a visitor
    that acts on the instance it is handed, by reference, and on what else
    it has captured (the state [S]); what it leaves in the instance stays
    in the map, also when it throws, which ends the loop. A visitor that
    calls the registry functions itself, or writes to the database through
    the instance, is not covered by this definition. *)
Fixpoint visit_entries {S} (fn : M (BlockFilterIndex * S) unit)
    (entries : list (Z * BlockFilterIndex))
  : M (gmap Z BlockFilterIndex * S) unit :=
  match entries with
  | [] => ret ()
  | entry :: rest =>
      fun st =>
        let r := fn (snd entry, snd st) in
        let st' := (<[fst entry := fst (snd r)]> (fst st), snd (snd r)) in
        match fst r with
        | Returned _ => visit_entries fn rest st'
        | Fault f => (Fault f, st')
        end
  end.

Definition ForEachBlockFilterIndex {S} (fn : M (BlockFilterIndex * S) unit)
  : M (Globals * S) unit :=
  fun st =>
    let r := visit_entries fn (entries_by_type (g_filter_indexes (fst st)))
               (g_filter_indexes (fst st), snd st) in
    (fst r,
     (mkGlobals (fst (snd r)) (block_filter_sqlite (fst st)), snd (snd r))).

(** ** Further notions *)

(** The blocks of the window, in the order the walks visit them: from
    [node] down to the last block whose height is at least
    [start_height]. *)
Fixpoint window (start_height : Z) (node : CBlockIndex) : list CBlockIndex :=
  if start_height <=? nHeight node then
    node :: match pprev node with
            | None => []
            | Some prev => window start_height prev
            end
  else [].

(** The table has a row for the block under its own height. *)
Definition height_indexed (t : list Row) (node : CBlockIndex) : bool :=
  existsb (fun r => match row_height r with
                    | Some h => (h =? nHeight node) &&
                                (row_blockHash r =? GetBlockHash node)
                    | None => false
                    end) t.

(** The table has a row for the block under a null height. *)
Definition displaced (t : list Row) (node : CBlockIndex) : bool :=
  existsb (null_height_and_hash (GetBlockHash node)) t.

(** The table has a row the hash query finds for the block. *)
Definition has_filter_hash (t : list Row) (node : CBlockIndex) : bool :=
  existsb (height_or_null_and_hash (nHeight node) (GetBlockHash node)) t.

Definition is_select (s : Stmt) : bool :=
  match s with
  | SelectHeightBetween _ _ _ | SelectFilterByNullHeight _ _
  | SelectFilterHash _ _ _ => true
  | _ => false
  end.

(** The point queries of the two walks, one per block. *)
Definition hash_query (name : string) (node : CBlockIndex) : Stmt :=
  SelectFilterHash name (nHeight node) (GetBlockHash node).

Definition fallback_query (name : string) (node : CBlockIndex) : Stmt :=
  SelectFilterByNullHeight name (GetBlockHash node).

(** A world made of an object and an empty debug log. *)
Definition world_of (index : BlockFilterIndex) : World :=
  {| this := index; debug_log := [] |}.

(** The statements executed on the object's connection. *)
Definition executed (w : World) : list Stmt := db_executed (db (this w)).

(** From [w] to [w'] only [SELECT]s were executed. *)
Definition queried (w w' : World) : Prop :=
  exists stmts,
    executed w' = executed w ++ stmts /\ forallb is_select stmts = true.

(** From [w] to [w'] nothing was written to the debug log. *)
Definition same_log (w w' : World) : Prop := debug_log w' = debug_log w.

(** A computation relates every world to the one it leaves. *)
Definition keeps (R : World -> World -> Prop) {A} (m : M World A) : Prop :=
  forall w, R w (snd (m w)).

(** A visitor that notes the name of every instance it is given, and a
    registry with two filter types. *)
Definition collect_names : M (BlockFilterIndex * list string) unit :=
  fun st => (Returned (), (fst st, m_filter_name (fst st) :: snd st)).

(** The same visitor, throwing on the instance named "extended" once it
    has noted the name. *)
Definition collect_names_until_extended
  : M (BlockFilterIndex * list string) unit :=
  fun st =>
    (if String.eqb (m_filter_name (fst st)) "extended"
     then Fault (InvalidArgument "extended") else Returned (),
     (fst st, m_filter_name (fst st) :: snd st)).

Definition two_registered : Globals :=
  {| g_filter_indexes :=
       {[ 1 := {| m_filter_type := 1; m_filter_name := "extended";
                  db := open_database true ∅ |};
          0 := this (index_on reorg_table) ]};
     block_filter_sqlite := {[ "basic" := reorg_table ]} |}.

(** The last line of the two range lookups, applied to what the loop
    hands over: the collected vector and the block [stop_index] points to
    when the loop has ended. *)
Definition completeness_check {A} (start_height : Z)
    (r : list A * CBlockIndex) : bool * list A :=
  (size_eq_int (length (fst r)) (nHeight (snd r) - start_height + 1), fst r).

(** * Properties *)

(** ** The monad *)

Lemma bind_returned {S A B} (m : M S A) (k : A -> M S B) s a s' :
  m s = (Returned a, s') -> (m ≫= k) s = k a s'.
Proof. intros E. unfold mbind, M_bind, bind. by rewrite E. Qed.

Lemma bind_fault {S A B} (m : M S A) (k : A -> M S B) s f s' :
  m s = (Fault f, s') -> (m ≫= k) s = (Fault f, s').
Proof. intros E. unfold mbind, M_bind, bind. by rewrite E. Qed.

(** ** Lookups change nothing but the list of executed statements and the
    debug log *)

Lemma frame_refl w : frame w w.
Proof. by repeat split. Qed.

Lemma frame_trans w1 w2 w3 : frame w1 w2 -> frame w2 w3 -> frame w1 w3.
Proof.
  intros (a1 & a2 & a3 & a4) (b1 & b2 & b3 & b4).
  repeat split; congruence.
Qed.

Lemma frame_table_of w w' : frame w w' -> table_of w' = table_of w.
Proof. intros (_ & Hn & Ht & _). unfold table_of. by rewrite Hn, Ht. Qed.

Lemma preserves_ret {A} (a : A) : preserves (ret a).
Proof. intros w. apply frame_refl. Qed.

Lemma preserves_raise {A} f : preserves (@raise World A f).
Proof. intros w. apply frame_refl. Qed.

Lemma preserves_error msg : preserves (error msg).
Proof. intros w. by repeat split. Qed.

Lemma preserves_run_select {A} s (rows : list Row -> list A) :
  preserves (run_select s rows).
Proof.
  intros w. unfold run_select.
  destruct (db_tables (db (this w)) !! m_filter_name (this w)); by repeat split.
Qed.

Lemma preserves_bind {A B} (m : M World A) (k : A -> M World B) :
  preserves m -> (forall a, preserves (k a)) -> preserves (m ≫= k).
Proof.
  intros Hm Hk w. specialize (Hm w).
  destruct (m w) as [[a | f] w'] eqn:E.
  - rewrite (bind_returned _ _ _ _ _ E). eapply frame_trans; [exact Hm | apply Hk].
  - by rewrite (bind_fault _ _ _ _ _ E).
Qed.

Lemma preserves_front {A} (v : list A) : preserves (front v).
Proof. destruct v; [apply preserves_raise | apply preserves_ret]. Qed.

Lemma preserves_LookupFilterRange_loop fuel start_height stop_index temp out :
  preserves (LookupFilterRange_loop fuel start_height stop_index temp out).
Proof.
  revert stop_index temp out.
  induction fuel as [| fuel IH]; intros stop_index temp out; simpl.
  { apply preserves_raise. }
  destruct stop_index as [node |]; [| apply preserves_raise].
  destruct (start_height <=? nHeight node); [| apply preserves_ret].
  destruct (find_hit temp node) as [hit |]; [apply IH |].
  intros w. apply preserves_bind; [apply preserves_run_select |].
  intros rows. apply IH.
Qed.

Lemma preserves_LookupFilterRange fuel start_height stop_index out :
  preserves (LookupFilterRange fuel start_height stop_index out).
Proof.
  unfold LookupFilterRange.
  destruct (start_height <? 0).
  { apply preserves_bind; [apply preserves_error | intros; apply preserves_ret]. }
  destruct (start_height >? nHeight stop_index).
  { apply preserves_bind; [apply preserves_error | intros; apply preserves_ret]. }
  intros w. apply preserves_bind; [apply preserves_run_select |].
  intros rows. apply preserves_bind; [apply preserves_LookupFilterRange_loop |].
  intros r. apply preserves_ret.
Qed.

Lemma CBlockIndex_chain_ind (P : CBlockIndex -> Prop) :
  (forall h x, P (mkBlockIndex h x None)) ->
  (forall h x prev, P prev -> P (mkBlockIndex h x (Some prev))) ->
  forall node, P node.
Proof.
  intros Hroot Hstep. fix IH 1.
  intros [h x [prev |]]; [apply Hstep, IH | apply Hroot].
Qed.

Lemma preserves_LookupFilterHashRange_loop start_height node out :
  preserves (LookupFilterHashRange_loop start_height node out).
Proof.
  revert out. induction node as [h x | h x prev IH] using CBlockIndex_chain_ind;
    intros out; simpl.
  - destruct (start_height <=? h); [| apply preserves_ret].
    apply preserves_bind; [apply preserves_run_select |].
    intros rows. apply preserves_raise.
  - destruct (start_height <=? h); [| apply preserves_ret].
    apply preserves_bind; [apply preserves_run_select |].
    intros rows. apply IH.
Qed.

Lemma preserves_LookupFilterHashRange start_height stop_index out :
  preserves (LookupFilterHashRange start_height stop_index out).
Proof.
  unfold LookupFilterHashRange.
  destruct (start_height <? 0).
  { apply preserves_bind; [apply preserves_error | intros; apply preserves_ret]. }
  destruct (start_height >? nHeight stop_index).
  { apply preserves_bind; [apply preserves_error | intros; apply preserves_ret]. }
  apply preserves_bind; [apply preserves_LookupFilterHashRange_loop |].
  intros r. apply preserves_ret.
Qed.

Lemma preserves_LookupFilter fuel block_index :
  preserves (LookupFilter fuel block_index).
Proof.
  apply preserves_bind; [apply preserves_LookupFilterRange |].
  intros r. destruct (negb (fst r)); [apply preserves_ret |].
  apply preserves_bind; [apply preserves_front | intros; apply preserves_ret].
Qed.

Lemma preserves_LookupFilterHeader block_index :
  preserves (LookupFilterHeader block_index).
Proof.
  apply preserves_bind; [apply preserves_LookupFilterHashRange |].
  intros r. destruct (negb (fst r)); [apply preserves_ret |].
  apply preserves_bind; [apply preserves_front | intros; apply preserves_ret].
Qed.

(** ** Reading the table *)

Lemma bind_fst_returned {S A B} (m : M S A) (k : A -> M S B) s a :
  fst (m s) = Returned a -> (m ≫= k) s = k a (snd (m s)).
Proof.
  destruct (m s) as [o s'] eqn:E. simpl. intros ->.
  by apply bind_returned.
Qed.

Lemma bind_fst_fault {S A B} (m : M S A) (k : A -> M S B) s f :
  fst (m s) = Fault f -> fst ((m ≫= k) s) = Fault f.
Proof.
  destruct (m s) as [o s'] eqn:E. simpl. intros ->.
  by rewrite (bind_fault _ _ _ _ _ E).
Qed.

Lemma run_select_returned {A} s (rows : list Row -> list A) w t :
  table_of w = Some t -> fst (run_select s rows w) = Returned (rows t).
Proof. unfold table_of, run_select. by intros ->. Qed.

Lemma run_select_missing {A} s (rows : list Row -> list A) w :
  table_of w = None ->
  fst (run_select s rows w) = Fault (NoSuchTable (m_filter_name (this w))).
Proof. unfold table_of, run_select. by intros ->. Qed.

Lemma run_select_table_of {A} s (rows : list Row -> list A) w :
  table_of (snd (run_select s rows w)) = table_of w.
Proof. apply frame_table_of, preserves_run_select. Qed.

Lemma run_select_filter_type {A} s (rows : list Row -> list A) w :
  m_filter_type (this (snd (run_select s rows w))) = m_filter_type (this w).
Proof. apply (preserves_run_select s rows w). Qed.

(** ** Chains *)

Lemma well_formed_root h x : well_formed (mkBlockIndex h x None) = true -> h = 0.
Proof. simpl. by rewrite Z.eqb_eq. Qed.

Lemma well_formed_step h x prev :
  well_formed (mkBlockIndex h x (Some prev)) = true ->
  h = nHeight prev + 1 /\ well_formed prev = true.
Proof. simpl. rewrite andb_true_iff, Z.eqb_eq. tauto. Qed.

Lemma well_formed_nonneg node : well_formed node = true -> 0 <= nHeight node.
Proof.
  induction node as [h x | h x prev IH] using CBlockIndex_chain_ind.
  - intros ->%well_formed_root. simpl. lia.
  - intros [-> Hp]%well_formed_step. specialize (IH Hp). simpl. lia.
Qed.

(** ** The final comparison *)

Lemma size_eq_int_below size start_height height :
  height = start_height - 1 ->
  size_eq_int size (height - start_height + 1) = Nat.eqb size 0.
Proof.
  intros ->. unfold size_eq_int.
  replace (start_height - 1 - start_height + 1) with 0 by lia.
  rewrite Z.mod_0_l by lia.
  by destruct size.
Qed.

Lemma eqb_length_nil {A} (l : list A) : Nat.eqb (length l) 0 = true -> l = [].
Proof. by destruct l. Qed.

(** ** The hash walk *)

(** From a start height of at least 1, on a well-formed chain, the walk ends
    on the block just below the window with everything the point queries
    yielded. *)
Lemma LookupFilterHashRange_loop_walk t start_height :
  1 <= start_height ->
  forall node, well_formed node = true -> start_height - 1 <= nHeight node ->
  forall out w, table_of w = Some t ->
  exists stop,
    fst (LookupFilterHashRange_loop start_height node out w) =
      Returned (out ++ walk_hashes t start_height node, stop) /\
    nHeight stop = start_height - 1.
Proof.
  intros Hstart.
  induction node as [h x | h x prev IH] using CBlockIndex_chain_ind;
    intros Hwf Hlow out w Ht; simpl in Hlow; simpl.
  - apply well_formed_root in Hwf as ->.
    rewrite (proj2 (Z.leb_gt start_height 0)) by lia.
    eexists. split; [by rewrite app_nil_r |]. simpl. lia.
  - apply well_formed_step in Hwf as [-> Hwf].
    destruct (start_height <=? nHeight prev + 1) eqn:Hle.
    + apply Z.leb_le in Hle.
      rewrite (bind_fst_returned _ _ _ _ (run_select_returned _ _ _ _ Ht)).
      match goal with
      | |- context [LookupFilterHashRange_loop _ _ ?o ?w'] =>
          destruct (IH Hwf ltac:(lia) o w') as (stop & Hrun & Hstop)
      end.
      { by rewrite run_select_table_of. }
      exists stop. split; [| done].
      rewrite Hrun. by rewrite app_assoc.
    + apply Z.leb_gt in Hle.
      eexists. split; [by rewrite app_nil_r |]. simpl. lia.
Qed.

(** A walk that is not stopped before the root steps past it and reads
    [nHeight] through the null [pprev]. *)
Lemma LookupFilterHashRange_loop_null start_height :
  forall node, reaches_root start_height node = true ->
  forall out w, is_Some (table_of w) ->
  fst (LookupFilterHashRange_loop start_height node out w) = Fault NullDeref.
Proof.
  induction node as [h x | h x prev IH] using CBlockIndex_chain_ind;
    intros Hreach out w [t Ht]; simpl in Hreach; simpl;
    apply andb_true_iff in Hreach as [-> Hreach];
    rewrite (bind_fst_returned _ _ _ _ (run_select_returned _ _ _ _ Ht)).
  - done.
  - apply IH; [done |]. exists t. by rewrite run_select_table_of.
Qed.

(** Whenever the walk ends, it ends just below the window. *)
Lemma LookupFilterHashRange_loop_returned start_height :
  forall node, well_formed node = true -> start_height - 1 <= nHeight node ->
  forall out w out' stop,
  fst (LookupFilterHashRange_loop start_height node out w) = Returned (out', stop) ->
  nHeight stop = start_height - 1 /\ (length out <= length out')%nat.
Proof.
  induction node as [h x | h x prev IH] using CBlockIndex_chain_ind;
    intros Hwf Hlow out w out' stop; simpl in Hlow; simpl.
  - destruct (start_height <=? h) eqn:Hle.
    + destruct (table_of w) as [t |] eqn:Ht.
      * by rewrite (bind_fst_returned _ _ _ _ (run_select_returned _ _ _ _ Ht)).
      * by rewrite (bind_fst_fault _ _ _ _ (run_select_missing _ _ _ Ht)).
    + apply Z.leb_gt in Hle. intros [= <- <-]. simpl. lia.
  - apply well_formed_step in Hwf as [-> Hwf].
    destruct (start_height <=? nHeight prev + 1) eqn:Hle.
    + apply Z.leb_le in Hle.
      destruct (table_of w) as [t |] eqn:Ht.
      * rewrite (bind_fst_returned _ _ _ _ (run_select_returned _ _ _ _ Ht)).
        intros Hrun. apply IH in Hrun as [Hstop Hlen]; [| done | lia].
        split; [done |]. rewrite length_app in Hlen. lia.
      * by rewrite (bind_fst_fault _ _ _ _ (run_select_missing _ _ _ Ht)).
    + apply Z.leb_gt in Hle. intros [= <- <-]. simpl. lia.
Qed.

(** The value of [LookupFilterHashRange] on a valid range that does not
    start at the root: it hands back what the walk yielded, and returns
    true exactly when that is nothing. *)
Lemma LookupFilterHashRange_returns t start_height stop_index out w :
  1 <= start_height <= nHeight stop_index ->
  well_formed stop_index = true ->
  table_of w = Some t ->
  let result := out ++ walk_hashes t start_height stop_index in
  fst (LookupFilterHashRange start_height stop_index out w) =
    Returned (Nat.eqb (length result) 0, result).
Proof.
  intros [Hlo Hhi] Hwf Ht result. unfold LookupFilterHashRange.
  rewrite (proj2 (Z.ltb_ge start_height 0)) by lia.
  destruct (start_height >? nHeight stop_index) eqn:Hgt.
  { apply Z.gtb_lt in Hgt. lia. }
  destruct (LookupFilterHashRange_loop_walk t start_height Hlo stop_index Hwf
              ltac:(lia) out w Ht) as (stop & Hrun & Hstop).
  rewrite (bind_fst_returned _ _ _ _ Hrun). simpl.
  by rewrite (size_eq_int_below _ _ _ Hstop).
Qed.

(** ** The filter walk *)

Lemma find_hit_hash temp node hit :
  find_hit temp node = Some hit -> m_block_hash hit = GetBlockHash node.
Proof.
  unfold find_hit. destruct (temp !! nHeight node) as [bf |]; [| done].
  destruct (m_block_hash bf =? GetBlockHash node) eqn:E; [| done].
  intros [= <-]. by apply Z.eqb_eq.
Qed.

Lemma find_hit_moved temp node hit :
  find_hit temp node = Some hit ->
  find_hit (<[nHeight node := moved_from hit]> temp) node = Some (moved_from hit).
Proof.
  intros H%find_hit_hash. unfold find_hit. rewrite lookup_insert_eq. simpl.
  by rewrite H, Z.eqb_refl.
Qed.

(** A block found in [temp] is found again on every later round: the
    [continue] skips the step to [pprev], and the loop never ends. *)
Lemma LookupFilterRange_loop_hit_diverges start_height node :
  start_height <= nHeight node ->
  forall fuel temp out w hit,
  find_hit temp node = Some hit ->
  fst (LookupFilterRange_loop fuel start_height (Some node) temp out w) =
    Fault OutOfFuel.
Proof.
  intros Hle%Z.leb_le.
  induction fuel as [| fuel IH]; intros temp out w hit Hhit; simpl; [done |].
  rewrite Hle, Hhit. eapply IH. by apply find_hit_moved.
Qed.

(** With no such block on the way and a start height of at least 1, the
    walk ends just below the window with what the fallback queries
    yielded. *)
Lemma LookupFilterRange_loop_walk t start_height temp :
  1 <= start_height ->
  forall node, well_formed node = true -> start_height - 1 <= nHeight node ->
  misses temp start_height node = true ->
  forall fuel out w, table_of w = Some t -> (chain_length node <= fuel)%nat ->
  exists stop,
    fst (LookupFilterRange_loop fuel start_height (Some node) temp out w) =
      Returned (out ++ walk_filters (m_filter_type (this w)) t start_height node,
                stop) /\
    nHeight stop = start_height - 1.
Proof.
  intros Hstart.
  induction node as [h x | h x prev IH] using CBlockIndex_chain_ind;
    intros Hwf Hlow Hmiss [| fuel] out w Ht Hfuel;
    simpl in Hlow, Hfuel, Hmiss; try lia; simpl.
  - apply well_formed_root in Hwf as ->.
    rewrite (proj2 (Z.leb_gt start_height 0)) by lia.
    eexists. split; [by rewrite app_nil_r |]. simpl. lia.
  - apply well_formed_step in Hwf as [-> Hwf].
    destruct (start_height <=? nHeight prev + 1) eqn:Hle.
    + apply Z.leb_le in Hle.
      destruct (find_hit temp _) as [hit |]; [done |].
      rewrite (bind_fst_returned _ _ _ _ (run_select_returned _ _ _ _ Ht)).
      match goal with
      | |- context [LookupFilterRange_loop _ _ _ _ ?o ?w'] =>
          destruct (IH Hwf ltac:(lia) Hmiss fuel o w') as (stop & Hrun & Hstop)
      end.
      { by rewrite run_select_table_of. }
      { lia. }
      exists stop. split; [| done].
      rewrite Hrun, run_select_filter_type. by rewrite app_assoc.
    + apply Z.leb_gt in Hle.
      eexists. split; [by rewrite app_nil_r |]. simpl. lia.
Qed.

(** With no such block on the way, a walk that is not stopped before the
    root steps past it and reads [nHeight] through the null [pprev]. *)
Lemma LookupFilterRange_loop_null start_height temp :
  forall node, reaches_root start_height node = true ->
  misses temp start_height node = true ->
  forall fuel out w, is_Some (table_of w) -> (chain_length node < fuel)%nat ->
  fst (LookupFilterRange_loop fuel start_height (Some node) temp out w) =
    Fault NullDeref.
Proof.
  induction node as [h x | h x prev IH] using CBlockIndex_chain_ind;
    intros Hreach Hmiss [| fuel] out w [t Ht] Hfuel;
    simpl in Hfuel, Hmiss, Hreach; try lia; simpl;
    apply andb_true_iff in Hreach as [Hle Hreach];
    rewrite Hle in Hmiss |- *;
    (destruct (find_hit temp _) as [hit |]; [done |]);
    rewrite (bind_fst_returned _ _ _ _ (run_select_returned _ _ _ _ Ht)).
  - destruct fuel; [lia | done].
  - apply IH; [done | done | | lia]. exists t.
    by rewrite run_select_table_of.
Qed.

(** Whenever the walk ends, it ends just below the window. *)
Lemma LookupFilterRange_loop_returned start_height :
  forall fuel node temp out w out' stop,
  well_formed node = true -> start_height - 1 <= nHeight node ->
  fst (LookupFilterRange_loop fuel start_height (Some node) temp out w) =
    Returned (out', stop) ->
  nHeight stop = start_height - 1 /\ (length out <= length out')%nat.
Proof.
  induction fuel as [| fuel IH]; intros node temp out w out' stop Hwf Hlow;
    simpl; [done |].
  destruct (start_height <=? nHeight node) eqn:Hle.
  - apply Z.leb_le in Hle.
    destruct (find_hit temp node) as [hit |].
    + intros Hrun. apply IH in Hrun as [Hstop Hlen]; [| done | done].
      split; [done |]. rewrite length_app in Hlen. lia.
    + destruct (table_of w) as [t |] eqn:Ht.
      * rewrite (bind_fst_returned _ _ _ _ (run_select_returned _ _ _ _ Ht)).
        destruct node as [h x [prev |]]; simpl in Hle, Hlow |- *.
        -- apply well_formed_step in Hwf as [-> Hwf].
           intros Hrun. apply IH in Hrun as [Hstop Hlen]; [| done | lia].
           split; [done |]. rewrite length_app in Hlen. lia.
        -- by destruct fuel.
      * by rewrite (bind_fst_fault _ _ _ _ (run_select_missing _ _ _ Ht)).
  - apply Z.leb_gt in Hle. intros [= <- <-]. lia.
Qed.

(** ** [LookupFilterRange] as a whole *)

Lemma LookupFilterRange_valid fuel start_height stop_index out w t :
  0 <= start_height <= nHeight stop_index ->
  table_of w = Some t ->
  exists w',
    table_of w' = Some t /\
    m_filter_type (this w') = m_filter_type (this w) /\
    LookupFilterRange fuel start_height stop_index out w =
      (r ← LookupFilterRange_loop fuel start_height (Some stop_index)
             (bulk_temp (m_filter_type (this w)) t start_height
                (nHeight stop_index)) out;
       ret (size_eq_int (length (fst r)) (nHeight (snd r) - start_height + 1),
            fst r)) w'.
Proof.
  intros [Hlo Hhi] Ht. unfold LookupFilterRange.
  rewrite (proj2 (Z.ltb_ge start_height 0)) by lia.
  destruct (start_height >? nHeight stop_index) eqn:Hgt.
  { apply Z.gtb_lt in Hgt. lia. }
  eexists. split; [| split]; cycle 2.
  - by rewrite (bind_fst_returned _ _ _ _ (run_select_returned _ _ _ _ Ht)).
  - by rewrite run_select_table_of.
  - by rewrite run_select_filter_type.
Qed.

(** The block the lookup is asked about is still indexed by height: the
    call does not return. *)
Lemma LookupFilterRange_hit_diverges fuel start_height stop_index out w t hit :
  0 <= start_height <= nHeight stop_index ->
  table_of w = Some t ->
  find_hit (bulk_temp (m_filter_type (this w)) t start_height (nHeight stop_index))
    stop_index = Some hit ->
  fst (LookupFilterRange fuel start_height stop_index out w) = Fault OutOfFuel.
Proof.
  intros Hrange Ht Hhit.
  destruct (LookupFilterRange_valid fuel _ _ out _ _ Hrange Ht) as (w' & _ & _ & ->).
  apply bind_fst_fault.
  eapply LookupFilterRange_loop_hit_diverges; [lia | done].
Qed.

(** No block of the window is indexed by height and the window does not
    start at the root: the call hands back what the fallback queries
    yielded, and returns true exactly when that is nothing. *)
Lemma LookupFilterRange_returns fuel start_height stop_index out w t :
  1 <= start_height <= nHeight stop_index ->
  well_formed stop_index = true ->
  table_of w = Some t ->
  misses (bulk_temp (m_filter_type (this w)) t start_height (nHeight stop_index))
    start_height stop_index = true ->
  (chain_length stop_index <= fuel)%nat ->
  let result :=
    out ++ walk_filters (m_filter_type (this w)) t start_height stop_index in
  fst (LookupFilterRange fuel start_height stop_index out w) =
    Returned (Nat.eqb (length result) 0, result).
Proof.
  intros [Hlo Hhi] Hwf Ht Hmiss Hfuel result.
  destruct (LookupFilterRange_valid fuel start_height stop_index out w t
              ltac:(lia) Ht) as (w' & Ht' & Hft & ->).
  destruct (LookupFilterRange_loop_walk t start_height _ Hlo stop_index Hwf
              ltac:(lia) Hmiss fuel out w' Ht' Hfuel) as (stop & Hrun & Hstop).
  rewrite (bind_fst_returned _ _ _ _ Hrun). simpl.
  rewrite (size_eq_int_below _ _ _ Hstop). by rewrite Hft.
Qed.

Lemma reaches_root_height start_height node :
  reaches_root start_height node = true -> start_height <= nHeight node.
Proof.
  destruct node as [h x prev]; simpl.
  intros [Hle _]%andb_true_iff. by apply Z.leb_le.
Qed.

Lemma well_formed_reaches_root node :
  well_formed node = true -> reaches_root 0 node = true.
Proof.
  induction node as [h x | h x prev IH] using CBlockIndex_chain_ind.
  - intros ->%well_formed_root. done.
  - intros Hwf. pose proof (well_formed_nonneg _ Hwf) as Hh.
    apply well_formed_step in Hwf as [-> Hwf]. simpl in Hh |- *.
    apply andb_true_iff. split; [by apply Z.leb_le | by apply IH].
Qed.

(** No block of the chain is indexed by height and the window starts at the
    root: the walk steps past the root. *)
Lemma LookupFilterRange_null fuel stop_index out w t :
  reaches_root 0 stop_index = true ->
  table_of w = Some t ->
  misses (bulk_temp (m_filter_type (this w)) t 0 (nHeight stop_index))
    0 stop_index = true ->
  (chain_length stop_index < fuel)%nat ->
  fst (LookupFilterRange fuel 0 stop_index out w) = Fault NullDeref.
Proof.
  intros Hreach Ht Hmiss Hfuel.
  pose proof (reaches_root_height _ _ Hreach).
  destruct (LookupFilterRange_valid fuel 0 stop_index out w t
              ltac:(lia) Ht) as (w' & Ht' & Hft & ->).
  apply bind_fst_fault.
  apply LookupFilterRange_loop_null; [done | done | by exists t | done].
Qed.

Lemma LookupFilterHashRange_null stop_index out w :
  reaches_root 0 stop_index = true ->
  is_Some (table_of w) ->
  fst (LookupFilterHashRange 0 stop_index out w) = Fault NullDeref.
Proof.
  intros Hreach Ht.
  pose proof (reaches_root_height _ _ Hreach).
  unfold LookupFilterHashRange. simpl.
  destruct (Z.gtb_spec 0 (nHeight stop_index)); [lia |].
  apply bind_fst_fault. by apply LookupFilterHashRange_loop_null.
Qed.

(** On a well-formed chain a call that returns true hands back nothing. *)
Lemma LookupFilterRange_true_empty fuel start_height stop_index w result :
  well_formed stop_index = true ->
  fst (LookupFilterRange fuel start_height stop_index [] w) =
    Returned (true, result) ->
  result = [].
Proof.
  intros Hwf. unfold LookupFilterRange.
  destruct (start_height <? 0); [done |].
  destruct (start_height >? nHeight stop_index) eqn:Hgt; [done |].
  assert (start_height <= nHeight stop_index) as Hhi.
  { destruct (Z.gtb_spec start_height (nHeight stop_index)); [done | lia]. }
  destruct (table_of w) as [t |] eqn:Ht.
  - rewrite (bind_fst_returned _ _ _ _ (run_select_returned _ _ _ _ Ht)).
    match goal with
    | |- context [(?m ≫= _) ?w'] =>
        destruct (m w') as [[[out' stop] | f0] w''] eqn:Hrun
    end.
    + rewrite (bind_returned _ _ _ _ _ Hrun). simpl.
      apply (f_equal fst) in Hrun.
      apply LookupFilterRange_loop_returned in Hrun as [Hstop _]; [| done | lia].
      rewrite (size_eq_int_below _ _ _ Hstop).
      intros [= Hlen <-]. by apply eqb_length_nil.
    + by rewrite (bind_fault _ _ _ _ _ Hrun).
  - by rewrite (bind_fst_fault _ _ _ _ (run_select_missing _ _ _ Ht)).
Qed.

Lemma LookupFilterHashRange_true_empty start_height stop_index w result :
  well_formed stop_index = true ->
  fst (LookupFilterHashRange start_height stop_index [] w) =
    Returned (true, result) ->
  result = [].
Proof.
  intros Hwf. unfold LookupFilterHashRange.
  destruct (start_height <? 0); [done |].
  destruct (start_height >? nHeight stop_index) eqn:Hgt; [done |].
  assert (start_height <= nHeight stop_index) as Hhi.
  { destruct (Z.gtb_spec start_height (nHeight stop_index)); [done | lia]. }
  destruct (LookupFilterHashRange_loop start_height stop_index [] w)
    as [[[out' stop] | f0] w''] eqn:Hrun.
  - rewrite (bind_returned _ _ _ _ _ Hrun). simpl.
    apply (f_equal fst) in Hrun.
    apply LookupFilterHashRange_loop_returned in Hrun as [Hstop _]; [| done | lia].
    rewrite (size_eq_int_below _ _ _ Hstop).
    intros [= Hlen <-]. by apply eqb_length_nil.
  - by rewrite (bind_fault _ _ _ _ _ Hrun).
Qed.

(** ** The single lookups never hand back a record *)

Lemma LookupFilter_never_finds fuel block_index w filter :
  well_formed block_index = true ->
  fst (LookupFilter fuel block_index w) <> Returned (Some filter).
Proof.
  intros Hwf. unfold LookupFilter.
  destruct (LookupFilterRange fuel (nHeight block_index) block_index [] w)
    as [[[ok filters] | f0] w'] eqn:Hrun.
  - rewrite (bind_returned _ _ _ _ _ Hrun). simpl.
    destruct ok; simpl; [| done].
    apply (f_equal fst) in Hrun.
    by apply LookupFilterRange_true_empty in Hrun as ->.
  - by rewrite (bind_fault _ _ _ _ _ Hrun).
Qed.

Lemma LookupFilterHeader_never_finds block_index w header :
  well_formed block_index = true ->
  fst (LookupFilterHeader block_index w) <> Returned (Some header).
Proof.
  intros Hwf. unfold LookupFilterHeader.
  destruct (LookupFilterHashRange (nHeight block_index) block_index [] w)
    as [[[ok hashes] | f0] w'] eqn:Hrun.
  - rewrite (bind_returned _ _ _ _ _ Hrun). simpl.
    destruct ok; simpl; [| done].
    apply (f_equal fst) in Hrun.
    by apply LookupFilterHashRange_true_empty in Hrun as ->.
  - by rewrite (bind_fault _ _ _ _ _ Hrun).
Qed.

(** ** Construction *)

Section ConstructionFacts.

Variable BlockFilterTypeName : BlockFilterType -> string.

Lemma BlockFilterIndex_new_unknown filter_type n_cache_size f_memory f_wipe file :
  BlockFilterTypeName filter_type = EmptyString ->
  BlockFilterIndex_new BlockFilterTypeName filter_type n_cache_size
    f_memory f_wipe file =
  (Fault (InvalidArgument "unknown filter_type"), file).
Proof. intros E. unfold BlockFilterIndex_new. by rewrite E. Qed.

Lemma constructor_body_runs name n_cache_size f_memory f_wipe file :
  constructor_body name n_cache_size f_wipe (open_database f_memory file) =
  (Returned (),
   {| db_tables :=
        tables_after name f_wipe (db_tables (open_database f_memory file));
      db_in_transaction := true;
      db_executed := statements_of name n_cache_size f_wipe;
      db_in_memory := f_memory |}).
Proof.
  unfold constructor_body, open_database, tables_after, statements_of.
  simpl. set (tables := if f_memory then ∅ else file). clearbody tables.
  unfold mbind, M_bind, bind, exec, when, record_stmt; simpl.
  destruct (tables !! name) as [t |] eqn:Ht; destruct f_wipe; simpl;
    rewrite ?Ht, ?lookup_insert_eq; simpl;
    rewrite ?insert_insert_eq, ?(insert_id _ _ _ Ht); reflexivity.
Qed.

Lemma BlockFilterIndex_new_known filter_type n_cache_size f_memory f_wipe file :
  BlockFilterTypeName filter_type <> EmptyString ->
  let name := BlockFilterTypeName filter_type in
  let index :=
    {| m_filter_type := filter_type;
       m_filter_name := name;
       db := {| db_tables :=
                  tables_after name f_wipe
                    (db_tables (open_database f_memory file));
                db_in_transaction := true;
                db_executed := statements_of name n_cache_size f_wipe;
                db_in_memory := f_memory |} |} in
  BlockFilterIndex_new BlockFilterTypeName filter_type n_cache_size
    f_memory f_wipe file =
  (Returned index, if f_memory then file else db_tables (db index)).
Proof.
  intros Hname name index. unfold BlockFilterIndex_new.
  destruct (String.eqb_spec (BlockFilterTypeName filter_type) EmptyString) as [E | _];
    [done |].
  by rewrite constructor_body_runs.
Qed.

End ConstructionFacts.

(** * The claims *)

(** C3. Both range lookups reject a start height that is negative or above
    the height of the stop block: they return false after writing the range
    error and nothing else happens. The object, and with it the tables and
    the list of executed statements, is the one before the call (no query
    was issued), and the output vector is handed back as it came in. *)
Theorem invalid_range_rejected fuel start_height stop_index
    (filters_out : list BlockFilter) (hashes_out : list uint256) w :
  start_height < 0 \/ start_height > nHeight stop_index ->
  LookupFilterRange fuel start_height stop_index filters_out w =
    (Returned (false, filters_out),
     {| this := this w;
        debug_log := debug_log w ++
          [invalid_range func_LookupFilterRange start_height stop_index] |}) /\
  LookupFilterHashRange start_height stop_index hashes_out w =
    (Returned (false, hashes_out),
     {| this := this w;
        debug_log := debug_log w ++
          [invalid_range func_LookupFilterHashRange start_height stop_index] |}).
Proof.
  intros Hbad. unfold LookupFilterRange, LookupFilterHashRange, invalid_range.
  destruct (Z.ltb_spec start_height 0) as [Hneg | Hnonneg]; [done |].
  destruct (Z.gtb_spec start_height (nHeight stop_index)) as [Hgt | Hle]; [done |].
  lia.
Qed.

Lemma invalid_range_rejected_witness :
  (3 < 0 \/ 3 > nHeight block_Y2) /\
  LookupFilterRange 5 3 block_Y2 [filter_X] (index_on reorg_table) =
    (Returned (false, [filter_X]),
     {| this := this (index_on reorg_table);
        debug_log := [StartHeightAboveStop "LookupFilterRange" 3 2] |}) /\
  LookupFilterHashRange 3 block_Y2 [7] (index_on reorg_table) =
    (Returned (false, [7]),
     {| this := this (index_on reorg_table);
        debug_log := [StartHeightAboveStop "LookupFilterHashRange" 3 2] |}).
Proof.
  assert (3 < 0 \/ 3 > nHeight block_Y2) as H by (right; simpl; lia).
  split; [exact H |].
  exact (invalid_range_rejected 5 3 block_Y2 [filter_X] [7]
           (index_on reorg_table) H).
Defined.

Lemma table_of_index_on t : table_of (index_on t) = Some t.
Proof. unfold table_of, index_on; simpl. apply lookup_singleton_eq. Qed.

(** The lookups of the window [1,1] against the displaced block X and
    against the block Z, for any fuel that lets the loop finish. *)
Lemma LookupFilterRange_at_X_and_Z fuel :
  fst (LookupFilterRange (S (S fuel)) 1 block_X [] (index_on reorg_table)) =
    Returned (false, [filter_X]) /\
  fst (LookupFilterRange (S (S fuel)) 1 block_Z [] (index_on reorg_table)) =
    Returned (true, []).
Proof.
  split.
  - rewrite (LookupFilterRange_returns _ 1 block_X [] _ reorg_table);
      [done | simpl; lia | done | apply table_of_index_on | done | simpl; lia].
  - rewrite (LookupFilterRange_returns _ 1 block_Z [] _ reorg_table);
      [done | simpl; lia | done | apply table_of_index_on | done | simpl; lia].
Qed.

(** C1 (the code departs from it). On the window [1,1] of the displaced
    block X the lookup collects exactly one record, the one of X, and
    returns false; on the same window of a block the table has no record
    of, it collects nothing and returns true. The last line compares the
    size with the height of the block the walk stopped on, which lies just
    below the window, not with the height of the block the call was given. *)
Theorem LookupFilterRange_result_against_window fuel :
  fst (LookupFilterRange (S (S fuel)) 1 block_X [] (index_on reorg_table)) =
    Returned (false, [filter_X]) /\
  fst (LookupFilterRange (S (S fuel)) 1 block_Z [] (index_on reorg_table)) =
    Returned (true, []).
Proof. apply LookupFilterRange_at_X_and_Z. Qed.

(** C2 (the code departs from it). After the reorganisation at height 1,
    the lookup against the tip X does fetch the record of X with the point
    query, but returns false; the lookup against the tip Y finds Y in the
    bulk result, [continue]s without stepping to [pprev], and never
    returns, whatever the fuel. *)
Theorem reorg_lookup_outcomes fuel :
  fst (LookupFilterRange (S (S fuel)) 1 block_X [] (index_on reorg_table)) =
    Returned (false, [filter_X]) /\
  db_executed (db (this (snd
    (LookupFilterRange (S (S fuel)) 1 block_X [] (index_on reorg_table))))) =
    [SelectHeightBetween "basic" 1 1; SelectFilterByNullHeight "basic" 21] /\
  fst (LookupFilterRange fuel 1 block_Y [] (index_on reorg_table)) =
    Fault OutOfFuel.
Proof.
  split; [| split].
  - apply LookupFilterRange_at_X_and_Z.
  - reflexivity.
  - apply (LookupFilterRange_hit_diverges fuel 1 block_Y [] _ reorg_table
             (mkBlockFilter 0 22 [x02]));
      [simpl; lia | apply table_of_index_on | done].
Qed.

(** C4 (the code departs from it). A call that returns true hands back the
    empty sequence, which does not cover the window [1,1]; and the walk
    appends in the order it visits the blocks, so the hashes of the window
    [1,2] come out with height 2 first. *)
Theorem range_result_coverage_and_order fuel :
  fst (LookupFilterHashRange 1 block_Z [] (index_on reorg_table)) =
    Returned (true, []) /\
  fst (LookupFilterRange (S (S fuel)) 1 block_Z [] (index_on reorg_table)) =
    Returned (true, []) /\
  fst (LookupFilterHashRange 1 block_Y2 [] (index_on reorg_table)) =
    Returned (false, [132; 122]).
Proof.
  split; [done | split; [| done]].
  apply LookupFilterRange_at_X_and_Z.
Qed.

(** C5 (the code departs from it). [LookupFilter] answers not-found for
    the displaced block X although the range lookup fetched its record;
    for a block without a record the range lookup returns true with an
    empty vector and [filters[0]] is read from it; for the active block Y
    the call does not return. [LookupFilterHeader] answers not-found for
    the blocks X and Y, whose filter hashes are in the table, and reads
    [filters[0]] of an empty vector for a block without a record. *)
Theorem single_lookup_outcomes fuel :
  fst (LookupFilter (S (S fuel)) block_X (index_on reorg_table)) = Returned None /\
  fst (LookupFilter (S (S fuel)) block_Z (index_on reorg_table)) =
    Fault EmptyVectorIndex /\
  fst (LookupFilter fuel block_Y (index_on reorg_table)) = Fault OutOfFuel /\
  fst (LookupFilterHeader block_X (index_on reorg_table)) = Returned None /\
  fst (LookupFilterHeader block_Y (index_on reorg_table)) = Returned None /\
  fst (LookupFilterHeader block_Z (index_on reorg_table)) = Fault EmptyVectorIndex.
Proof.
  assert (forall b (r : list BlockFilter) node,
    fst (LookupFilterRange (S (S fuel)) 1 node [] (index_on reorg_table)) =
      Returned (b, r) ->
    nHeight node = 1 ->
    fst (LookupFilter (S (S fuel)) node (index_on reorg_table)) =
      if negb b then Returned None
      else match r with [] => Fault EmptyVectorIndex | f :: _ => Returned (Some f) end)
    as Hsingle.
  { intros b r node Hrun Hh. unfold LookupFilter. rewrite Hh.
    rewrite (bind_fst_returned _ _ _ _ Hrun). simpl.
    destruct b; simpl; [| done]. by destruct r. }
  pose proof (LookupFilterRange_at_X_and_Z fuel) as [HX HZ].
  split; [by rewrite (Hsingle _ _ _ HX) |].
  split; [by rewrite (Hsingle _ _ _ HZ) |].
  split; [| done].
  unfold LookupFilter. apply bind_fst_fault.
  apply (LookupFilterRange_hit_diverges fuel 1 block_Y [] _ reorg_table
           (mkBlockFilter 0 22 [x02]));
    [simpl; lia | apply table_of_index_on | done].
Qed.

(** C6 (the code departs from it). On the window [1,1] the hash lookup
    yields the one filter hash of the ancestor at height 1, for the
    height-indexed block Y and for the displaced block X alike, and returns
    false; it returns true for a block that yields no hash. *)
Theorem LookupFilterHashRange_result_against_window :
  fst (LookupFilterHashRange 1 block_Y [] (index_on reorg_table)) =
    Returned (false, [122]) /\
  fst (LookupFilterHashRange 1 block_X [] (index_on reorg_table)) =
    Returned (false, [121]) /\
  fst (LookupFilterHashRange 1 block_Z [] (index_on reorg_table)) =
    Returned (true, []).
Proof. done. Qed.

(** C7. The constructor throws for a filter type without a name, before
    any statement is run, and leaves the database file as it was. For a
    known type it builds the object: the table of that name exists
    afterwards, empty when the wipe flag is set and with the rows it had
    (none if it is new) otherwise, the other tables are untouched, the
    [DELETE] is run exactly when the wipe flag is set, and the last
    statement run is the [BEGIN] that leaves a transaction open. *)
Theorem constructor_contract (BlockFilterTypeName : BlockFilterType -> string)
    filter_type n_cache_size f_memory f_wipe file :
  let name := BlockFilterTypeName filter_type in
  let visible := db_tables (open_database f_memory file) in
  let r := BlockFilterIndex_new BlockFilterTypeName filter_type n_cache_size
             f_memory f_wipe file in
  (name = EmptyString -> r = (Fault (InvalidArgument "unknown filter_type"), file)) /\
  (name <> EmptyString ->
   exists index,
     fst r = Returned index /\
     m_filter_type index = filter_type /\
     m_filter_name index = name /\
     db_tables (db index) !! name =
       Some (if f_wipe then [] else default [] (visible !! name)) /\
     (forall other, other <> name ->
        db_tables (db index) !! other = visible !! other) /\
     (DeleteFrom name ∈ db_executed (db index) <-> f_wipe = true) /\
     db_in_transaction (db index) = true /\
     last (db_executed (db index)) = Some Begin /\
     snd r = if f_memory then file else db_tables (db index)).
Proof.
  intros name visible r. split.
  - intros E. by apply BlockFilterIndex_new_unknown.
  - intros Hname. subst r.
    rewrite (BlockFilterIndex_new_known _ _ n_cache_size f_memory f_wipe file Hname).
    eexists. split; [done |]. simpl. fold name visible.
    split; [done |]. split; [done |].
    split; [apply lookup_insert_eq |].
    split; [intros other Hother; by apply lookup_insert_ne |].
    split; [| split; [done | split; [by destruct f_wipe | done]]].
    unfold statements_of. destruct f_wipe; simpl.
    + split; [done |]. intros _. set_solver.
    + split; [| done]. intros H.
      repeat (apply elem_of_cons in H as [H | H]; [discriminate |]).
      by apply elem_of_nil in H.
Qed.

Lemma constructor_contract_witness :
  (basic_only 7 = EmptyString /\
   BlockFilterIndex_new basic_only 7 4096 false true {[ "basic" := reorg_table ]} =
     (Fault (InvalidArgument "unknown filter_type"), {[ "basic" := reorg_table ]})) /\
  (basic_only 0 <> EmptyString /\
   exists index,
     fst (BlockFilterIndex_new basic_only 0 4096 false true
            {[ "basic" := reorg_table ]}) = Returned index /\
     db_tables (db index) !! "basic" = Some [] /\
     db_in_transaction (db index) = true).
Proof.
  split.
  - split; [reflexivity |].
    apply (constructor_contract basic_only 7 4096 false true
             {[ "basic" := reorg_table ]}).
    reflexivity.
  - assert (basic_only 0 <> EmptyString) as Hname by discriminate.
    split; [exact Hname |].
    destruct (proj2 (constructor_contract basic_only 0 4096 false true
                       {[ "basic" := reorg_table ]}) Hname)
      as (index & Hrun & _ & _ & Htable & _ & _ & Htxn & _).
    exists index. split; [exact Hrun |]. split; [exact Htable | exact Htxn].
Defined.

(** ** The dual-key invariant *)

Lemma dual_key_invariant_nil : dual_key_invariant [].
Proof. split; constructor. Qed.

Lemma tables_ok_after name f_wipe tables :
  tables_ok tables -> tables_ok (tables_after name f_wipe tables).
Proof.
  intros Hok. apply map_Forall_insert_2; [| done].
  destruct f_wipe; [apply dual_key_invariant_nil |].
  destruct (tables !! name) as [t |] eqn:Ht; simpl.
  - by apply (Hok name).
  - apply dual_key_invariant_nil.
Qed.

Lemma tables_ok_open f_memory file :
  tables_ok file -> tables_ok (db_tables (open_database f_memory file)).
Proof. destruct f_memory; simpl; [intros _; apply map_Forall_empty | done]. Qed.

Lemma preserves_tables {A} (m : M World A) w :
  preserves m -> tables_in (snd (m w)) = tables_in w.
Proof. intros H. apply (H w). Qed.

(** C9. No operation of the index breaks the dual-key invariant. The four
    lookups leave every table as it was; the constructor leaves every table
    as it was except its own, which it creates empty, keeps, or empties
    when the wipe flag is set. *)
Theorem dual_key_invariant_preserved
    (BlockFilterTypeName : BlockFilterType -> string) w fuel start_height
    stop_index block_index (filters_out : list BlockFilter)
    (hashes_out : list uint256) filter_type n_cache_size f_memory f_wipe file :
  tables_ok (tables_in w) ->
  tables_ok file ->
  let constructed :=
    BlockFilterIndex_new BlockFilterTypeName filter_type n_cache_size
      f_memory f_wipe file in
  tables_ok (tables_in (snd
    (LookupFilterRange fuel start_height stop_index filters_out w))) /\
  tables_ok (tables_in (snd
    (LookupFilterHashRange start_height stop_index hashes_out w))) /\
  tables_ok (tables_in (snd (LookupFilter fuel block_index w))) /\
  tables_ok (tables_in (snd (LookupFilterHeader block_index w))) /\
  tables_ok (snd constructed) /\
  (forall index, fst constructed = Returned index ->
     tables_ok (db_tables (db index)) /\
     (f_wipe = true -> db_tables (db index) !! m_filter_name index = Some [])).
Proof.
  intros Hw Hfile constructed.
  rewrite (preserves_tables _ w (preserves_LookupFilterRange _ _ _ _)).
  rewrite (preserves_tables _ w (preserves_LookupFilterHashRange _ _ _)).
  rewrite (preserves_tables _ w (preserves_LookupFilter _ _)).
  rewrite (preserves_tables _ w (preserves_LookupFilterHeader _)).
  do 4 (split; [done |]).
  subst constructed.
  destruct (decide (BlockFilterTypeName filter_type = EmptyString)) as [E | Hname].
  - rewrite (BlockFilterIndex_new_unknown _ _ _ _ _ _ E). simpl.
    split; [done |]. intros index [=].
  - rewrite (BlockFilterIndex_new_known _ _ n_cache_size f_memory f_wipe file Hname).
    simpl. split.
    + destruct f_memory; [done |]. by apply tables_ok_after.
    + intros index [= <-]. simpl. split.
      * by apply tables_ok_after, tables_ok_open.
      * intros ->. apply lookup_insert_eq.
Qed.

Lemma dual_key_invariant_reorg_table : dual_key_invariant reorg_table.
Proof. split; by apply (bool_decide_unpack _). Qed.

Lemma dual_key_invariant_preserved_witness :
  tables_ok (tables_in (index_on reorg_table)) /\
  tables_ok {[ "basic" := reorg_table ]} /\
  tables_ok (tables_in (snd
    (LookupFilterRange 3 1 block_X [] (index_on reorg_table)))) /\
  tables_ok (snd (BlockFilterIndex_new basic_only 0 4096 false true
                    {[ "basic" := reorg_table ]})).
Proof.
  assert (tables_ok {[ "basic" := reorg_table ]}) as Hok.
  { apply map_Forall_singleton, dual_key_invariant_reorg_table. }
  split; [exact Hok |]. split; [exact Hok |].
  destruct (dual_key_invariant_preserved basic_only (index_on reorg_table)
              3 1 block_X block_X [] [] 0 4096 false true
              {[ "basic" := reorg_table ]} Hok Hok)
    as (Hrange & _ & _ & _ & Hnew & _).
  split; [exact Hrange | exact Hnew].
Defined.

(** ** The registry *)

(** What holds of the registry in every case: for a filter type that has a
    name, registering returns true exactly when no instance is registered
    for it, and then the instance the constructor built is the one a lookup
    returns, the other entries being untouched; when an instance is
    registered already it returns false. Unregistering returns true exactly
    when an instance was registered, and afterwards, as after unregistering
    all, a lookup finds nothing; other entries are untouched by
    unregistering one. *)
Lemma registry_lookup_facts (BlockFilterTypeName : BlockFilterType -> string)
    (emplace_constructs_first : bool) filter_type n_cache_size f_memory f_wipe g :
  let registered :=
    InitBlockFilterIndex BlockFilterTypeName emplace_constructs_first
      filter_type n_cache_size f_memory f_wipe g in
  let constructed :=
    BlockFilterIndex_new BlockFilterTypeName filter_type n_cache_size
      f_memory f_wipe (block_filter_sqlite g) in
  let unregistered := DestroyBlockFilterIndex filter_type g in
  (BlockFilterTypeName filter_type <> EmptyString ->
     (fst registered = Returned true <-> GetBlockFilterIndex filter_type g = None) /\
     (GetBlockFilterIndex filter_type g = None ->
        exists index,
          fst constructed = Returned index /\
          GetBlockFilterIndex filter_type (snd registered) = Some index /\
          forall other, other <> filter_type ->
            GetBlockFilterIndex other (snd registered) =
            GetBlockFilterIndex other g) /\
     (is_Some (GetBlockFilterIndex filter_type g) ->
        fst registered = Returned false)) /\
  (fst unregistered = Returned true <->
     is_Some (GetBlockFilterIndex filter_type g)) /\
  (fst unregistered = Returned false <->
     GetBlockFilterIndex filter_type g = None) /\
  GetBlockFilterIndex filter_type (snd unregistered) = None /\
  (forall other, other <> filter_type ->
     GetBlockFilterIndex other (snd unregistered) = GetBlockFilterIndex other g) /\
  (forall other,
     GetBlockFilterIndex other (snd (DestroyAllBlockFilterIndexes g)) = None).
Proof.
  intros registered constructed unregistered.
  subst registered constructed unregistered.
  unfold InitBlockFilterIndex, DestroyBlockFilterIndex,
    DestroyAllBlockFilterIndexes, GetBlockFilterIndex.
  destruct g as [indexes file]; simpl.
  split; [| split; [| split; [| split; [| split]]]].
  - intros Hname.
    rewrite (BlockFilterIndex_new_known _ _ n_cache_size f_memory f_wipe file Hname).
    simpl. destruct (indexes !! filter_type) as [old |] eqn:Hold.
    + split; [| split].
      * destruct emplace_constructs_first; simpl; split; discriminate.
      * discriminate.
      * intros _. by destruct emplace_constructs_first.
    + simpl. split; [done | split].
      * intros _. eexists. split; [done |].
        split; [apply lookup_insert_eq |].
        intros other Hother. by apply lookup_insert_ne.
      * by intros [? [=]].
  - destruct (indexes !! filter_type) as [old |]; simpl.
    + split; eauto.
    + split; [discriminate | by intros [? [=]]].
  - destruct (indexes !! filter_type) as [old |]; simpl.
    + split; discriminate.
    + done.
  - apply lookup_delete_eq.
  - intros other Hother. by apply lookup_delete_ne.
  - intros other. apply lookup_empty.
Qed.

(** C8 (the code departs from it). Type 0 is registered, on the database
    file, whose table holds the four rows of [reorg_table]. Registering
    type 0 again with the wipe flag returns false, but it is no no-op:
    [emplace] has built a second [BlockFilterIndex] before it looked for
    the key, and the constructor of that object has run its [DELETE] on the
    file. The table in the file is empty afterwards, and the instance that
    was registered all along, which reads that file, no longer finds the
    filter hash of block X that it found before the call. Only where
    [emplace] looks for the key first is the call the no-op the claim
    describes. *)
Theorem register_again_constructs_and_wipes :
  let before := basic_registered in
  let call := InitBlockFilterIndex basic_only true 0 4096 false true before in
  fst call = Returned false /\
  block_filter_sqlite before !! "basic" = Some reorg_table /\
  block_filter_sqlite (snd call) !! "basic" = Some [] /\
  (exists index,
     GetBlockFilterIndex 0 before = Some index /\
     fst (LookupFilterHashRange 1 block_X [] (world_of index)) =
       Returned (false, [121])) /\
  (exists index,
     GetBlockFilterIndex 0 (snd call) = Some index /\
     table_of (world_of index) = Some [] /\
     fst (LookupFilterHashRange 1 block_X [] (world_of index)) =
       Returned (true, [])) /\
  snd call <> before /\
  InitBlockFilterIndex basic_only false 0 4096 false true before =
    (Returned false, before).
Proof.
  simpl. split_and!; try reflexivity.
  - eexists. split; reflexivity.
  - eexists. split_and!; reflexivity.
  - intros H. apply (f_equal (fun g => block_filter_sqlite g !! "basic")) in H.
    discriminate H.
Qed.

(** * Further properties *)

(** ** The window *)

Lemma window_walk_hashes t start_height node :
  walk_hashes t start_height node =
  mjoin ((fun n => select_filter_hash t (nHeight n) (GetBlockHash n))
           <$> window start_height node).
Proof.
  induction node as [h x | h x prev IH] using CBlockIndex_chain_ind; simpl;
    destruct (start_height <=? h); simpl; try done.
  by rewrite IH.
Qed.

Lemma window_walk_filters ft t start_height node :
  walk_filters ft t start_height node =
  mjoin ((fun n => mkBlockFilter ft (GetBlockHash n)
                     <$> select_filter_by_null_height t (GetBlockHash n))
           <$> window start_height node).
Proof.
  induction node as [h x | h x prev IH] using CBlockIndex_chain_ind; simpl;
    destruct (start_height <=? h); simpl; try done.
  by rewrite IH.
Qed.

(** On a well-formed chain the window holds one block per height, from the
    height of [node] down to [start_height]. *)
Lemma window_heights start_height node :
  well_formed node = true -> 0 <= start_height ->
  start_height - 1 <= nHeight node ->
  nHeight <$> window start_height node =
  (fun i => nHeight node - Z.of_nat i)
    <$> seq 0 (Z.to_nat (nHeight node - start_height + 1)).
Proof.
  intros Hwf Hstart.
  induction node as [h x | h x prev IH] using CBlockIndex_chain_ind;
    intros Hlow; simpl in Hlow; simpl.
  - apply well_formed_root in Hwf as ->.
    destruct (Z.leb_spec start_height 0).
    + replace start_height with 0 by lia. done.
    + replace (0 - start_height + 1) with 0 by lia. done.
  - apply well_formed_step in Hwf as [-> Hwf].
    destruct (Z.leb_spec start_height (nHeight prev + 1)).
    + rewrite fmap_cons, IH by (done || lia).
      replace (Z.to_nat (nHeight prev + 1 - start_height + 1))
        with (S (Z.to_nat (nHeight prev - start_height + 1))) by lia.
      simpl. f_equal; [lia |].
      rewrite <- fmap_S_seq, <- list_fmap_compose.
      apply list_fmap_ext. intros _ i _. simpl. lia.
    + by replace (nHeight prev + 1 - start_height + 1) with 0 by lia.
Qed.

Lemma window_length start_height node :
  well_formed node = true -> 0 <= start_height ->
  start_height - 1 <= nHeight node ->
  length (window start_height node) =
  Z.to_nat (nHeight node - start_height + 1).
Proof.
  intros Hwf Hstart Hlow.
  rewrite <- (length_fmap nHeight), window_heights by done.
  by rewrite length_fmap, length_seq.
Qed.

(** ** What a lookup may change *)

Section WorldRelation.

Variable R : World -> World -> Prop.
Hypothesis R_refl : forall w, R w w.
Hypothesis R_trans : forall w1 w2 w3, R w1 w2 -> R w2 w3 -> R w1 w3.
Hypothesis R_select :
  forall A s (rows : list Row -> list A) w,
    (forall name, is_select (s name) = true) ->
    R w (snd (run_select s rows w)).

Lemma keeps_ret {A} (a : A) : keeps R (ret a).
Proof. intros w. apply R_refl. Qed.

Lemma keeps_raise {A} f : keeps R (@raise World A f).
Proof. intros w. apply R_refl. Qed.

Lemma keeps_bind {A B} (m : M World A) (k : A -> M World B) :
  keeps R m -> (forall a, keeps R (k a)) -> keeps R (m ≫= k).
Proof.
  intros Hm Hk w. specialize (Hm w).
  destruct (m w) as [[a | f] w'] eqn:E.
  - rewrite (bind_returned _ _ _ _ _ E). eapply R_trans; [exact Hm | apply Hk].
  - by rewrite (bind_fault _ _ _ _ _ E).
Qed.

Lemma keeps_front {A} (v : list A) : keeps R (front v).
Proof. destruct v; [apply keeps_raise | apply keeps_ret]. Qed.

Lemma keeps_LookupFilterRange_loop fuel start_height stop_index temp out :
  keeps R (LookupFilterRange_loop fuel start_height stop_index temp out).
Proof.
  revert stop_index temp out.
  induction fuel as [| fuel IH]; intros stop_index temp out; simpl.
  { apply keeps_raise. }
  destruct stop_index as [node |]; [| apply keeps_raise].
  destruct (start_height <=? nHeight node); [| apply keeps_ret].
  destruct (find_hit temp node) as [hit |]; [apply IH |].
  intros w. apply keeps_bind; [intros ?; by apply R_select |].
  intros rows. apply IH.
Qed.

Lemma keeps_LookupFilterHashRange_loop start_height node out :
  keeps R (LookupFilterHashRange_loop start_height node out).
Proof.
  revert out. induction node as [h x | h x prev IH] using CBlockIndex_chain_ind;
    intros out; simpl.
  - destruct (start_height <=? h); [| apply keeps_ret].
    apply keeps_bind; [intros ?; by apply R_select |].
    intros rows. apply keeps_raise.
  - destruct (start_height <=? h); [| apply keeps_ret].
    apply keeps_bind; [intros ?; by apply R_select |].
    intros rows. apply IH.
Qed.

(** The range lookups, when [error] is covered or not reached. *)
Lemma keeps_LookupFilterRange fuel start_height stop_index out :
  (forall msg w, R w (snd (error msg w)))
  \/ 0 <= start_height <= nHeight stop_index ->
  keeps R (LookupFilterRange fuel start_height stop_index out).
Proof.
  intros Herr. unfold LookupFilterRange.
  destruct (Z.ltb_spec start_height 0) as [Hneg | Hlo].
  { destruct Herr as [Herr | ?]; [| lia].
    apply keeps_bind; [intros w; apply Herr | intros; apply keeps_ret]. }
  destruct (Z.gtb_spec start_height (nHeight stop_index)) as [Hgt | Hhi].
  { destruct Herr as [Herr | ?]; [| lia].
    apply keeps_bind; [intros w; apply Herr | intros; apply keeps_ret]. }
  intros w. apply keeps_bind; [intros ?; by apply R_select |].
  intros rows. apply keeps_bind; [apply keeps_LookupFilterRange_loop |].
  intros r. apply keeps_ret.
Qed.

Lemma keeps_LookupFilterHashRange start_height stop_index out :
  (forall msg w, R w (snd (error msg w)))
  \/ 0 <= start_height <= nHeight stop_index ->
  keeps R (LookupFilterHashRange start_height stop_index out).
Proof.
  intros Herr. unfold LookupFilterHashRange.
  destruct (Z.ltb_spec start_height 0) as [Hneg | Hlo].
  { destruct Herr as [Herr | ?]; [| lia].
    apply keeps_bind; [intros w; apply Herr | intros; apply keeps_ret]. }
  destruct (Z.gtb_spec start_height (nHeight stop_index)) as [Hgt | Hhi].
  { destruct Herr as [Herr | ?]; [| lia].
    apply keeps_bind; [intros w; apply Herr | intros; apply keeps_ret]. }
  apply keeps_bind; [apply keeps_LookupFilterHashRange_loop |].
  intros r. apply keeps_ret.
Qed.

Lemma keeps_LookupFilter fuel block_index :
  (forall msg w, R w (snd (error msg w))) \/ 0 <= nHeight block_index ->
  keeps R (LookupFilter fuel block_index).
Proof.
  intros Herr. apply keeps_bind.
  - apply keeps_LookupFilterRange. destruct Herr; [by left | right; lia].
  - intros r. destruct (negb (fst r)); [apply keeps_ret |].
    apply keeps_bind; [apply keeps_front | intros; apply keeps_ret].
Qed.

Lemma keeps_LookupFilterHeader block_index :
  (forall msg w, R w (snd (error msg w))) \/ 0 <= nHeight block_index ->
  keeps R (LookupFilterHeader block_index).
Proof.
  intros Herr. apply keeps_bind.
  - apply keeps_LookupFilterHashRange. destruct Herr; [by left | right; lia].
  - intros r. destruct (negb (fst r)); [apply keeps_ret |].
    apply keeps_bind; [apply keeps_front | intros; apply keeps_ret].
Qed.

End WorldRelation.

Lemma queried_refl w : queried w w.
Proof. exists []. by rewrite app_nil_r. Qed.

Lemma queried_trans w1 w2 w3 : queried w1 w2 -> queried w2 w3 -> queried w1 w3.
Proof.
  intros (l1 & E1 & H1) (l2 & E2 & H2). exists (l1 ++ l2). split.
  - by rewrite E2, E1, app_assoc.
  - rewrite forallb_app. by rewrite H1, H2.
Qed.

Lemma queried_select {A} s (rows : list Row -> list A) w :
  (forall name, is_select (s name) = true) ->
  queried w (snd (run_select s rows w)).
Proof.
  intros Hs. exists [s (m_filter_name (this w))]. split.
  - unfold run_select.
    by destruct (db_tables (db (this w)) !! m_filter_name (this w)).
  - simpl. by rewrite Hs.
Qed.

Lemma queried_error msg w : queried w (snd (error msg w)).
Proof. exists []. by rewrite app_nil_r. Qed.

Lemma frame_select {A} s (rows : list Row -> list A) w :
  (forall name, is_select (s name) = true) ->
  frame w (snd (run_select s rows w)).
Proof. intros _. apply preserves_run_select. Qed.

Lemma same_log_select {A} s (rows : list Row -> list A) w :
  (forall name, is_select (s name) = true) ->
  same_log w (snd (run_select s rows w)).
Proof.
  intros _. unfold same_log, run_select.
  by destruct (db_tables (db (this w)) !! m_filter_name (this w)).
Qed.

Lemma same_log_trans w1 w2 w3 : same_log w1 w2 -> same_log w2 w3 -> same_log w1 w3.
Proof. unfold same_log. congruence. Qed.

(** X1. Whatever their outcome, the four lookups are read-only: the type and
    name of the object, its tables and its transaction state are the ones
    before the call, and the statements executed in between are [SELECT]s
    only. *)
Theorem lookups_read_only fuel start_height stop_index block_index
    (filters_out : list BlockFilter) (hashes_out : list uint256) w :
  let after_range :=
    snd (LookupFilterRange fuel start_height stop_index filters_out w) in
  let after_hash_range :=
    snd (LookupFilterHashRange start_height stop_index hashes_out w) in
  let after_filter := snd (LookupFilter fuel block_index w) in
  let after_header := snd (LookupFilterHeader block_index w) in
  (frame w after_range /\ queried w after_range) /\
  (frame w after_hash_range /\ queried w after_hash_range) /\
  (frame w after_filter /\ queried w after_filter) /\
  (frame w after_header /\ queried w after_header).
Proof.
  simpl. split_and!.
  - apply preserves_LookupFilterRange.
  - apply (keeps_LookupFilterRange queried queried_refl queried_trans
             (@queried_select)). left. apply queried_error.
  - apply preserves_LookupFilterHashRange.
  - apply (keeps_LookupFilterHashRange queried queried_refl queried_trans
             (@queried_select)). left. apply queried_error.
  - apply preserves_LookupFilter.
  - apply (keeps_LookupFilter queried queried_refl queried_trans
             (@queried_select)). left. apply queried_error.
  - apply preserves_LookupFilterHeader.
  - apply (keeps_LookupFilterHeader queried queried_refl queried_trans
             (@queried_select)). left. apply queried_error.
Qed.

(** X2. Past the range checks nothing is written to the debug log: a
    lookup over a valid range that fails, faults or finds nothing leaves no
    line behind. *)
Theorem valid_range_lookup_is_silent fuel start_height stop_index
    (filters_out : list BlockFilter) (hashes_out : list uint256) w :
  0 <= start_height <= nHeight stop_index ->
  debug_log (snd (LookupFilterRange fuel start_height stop_index filters_out w)) =
    debug_log w /\
  debug_log (snd (LookupFilterHashRange start_height stop_index hashes_out w)) =
    debug_log w /\
  debug_log (snd (LookupFilter fuel stop_index w)) = debug_log w /\
  debug_log (snd (LookupFilterHeader stop_index w)) = debug_log w.
Proof.
  intros Hrange.
  assert (forall w : World, same_log w w) as Hrefl by done.
  split_and!.
  - apply (keeps_LookupFilterRange same_log Hrefl same_log_trans
             (@same_log_select)). by right.
  - apply (keeps_LookupFilterHashRange same_log Hrefl same_log_trans
             (@same_log_select)). by right.
  - apply (keeps_LookupFilter same_log Hrefl same_log_trans
             (@same_log_select)). right. lia.
  - apply (keeps_LookupFilterHeader same_log Hrefl same_log_trans
             (@same_log_select)). right. lia.
Qed.

Lemma valid_range_lookup_is_silent_witness :
  0 <= 1 <= nHeight block_Y2 /\
  debug_log (snd (LookupFilterRange 5 1 block_Y2 [] (index_on reorg_table))) = [] /\
  debug_log (snd (LookupFilterHashRange 1 block_Y2 [] (index_on reorg_table))) = [].
Proof.
  assert (0 <= 1 <= nHeight block_Y2) as H by (simpl; lia).
  split; [exact H |].
  destruct (valid_range_lookup_is_silent 5 1 block_Y2 [] []
              (index_on reorg_table) H) as (H1 & H2 & _).
  split; [exact H1 | exact H2].
Defined.

(** ** The statements a walk executes *)

Lemma run_select_executed {A} s (rows : list Row -> list A) w :
  executed (snd (run_select s rows w)) =
  executed w ++ [s (m_filter_name (this w))].
Proof.
  unfold run_select.
  by destruct (db_tables (db (this w)) !! m_filter_name (this w)).
Qed.

Lemma run_select_name {A} s (rows : list Row -> list A) w :
  m_filter_name (this (snd (run_select s rows w))) = m_filter_name (this w).
Proof. apply (preserves_run_select s rows w). Qed.

Lemma LookupFilterHashRange_loop_executed start_height :
  forall node out w, is_Some (table_of w) ->
  executed (snd (LookupFilterHashRange_loop start_height node out w)) =
  executed w ++ (hash_query (m_filter_name (this w)) <$> window start_height node).
Proof.
  induction node as [h x | h x prev IH] using CBlockIndex_chain_ind;
    intros out w [t Ht]; simpl;
    (destruct (start_height <=? h); [| by rewrite app_nil_r]);
    rewrite (bind_fst_returned _ _ _ _ (run_select_returned _ _ _ _ Ht)).
  - simpl. by rewrite run_select_executed.
  - rewrite IH by (exists t; by rewrite run_select_table_of).
    rewrite run_select_executed, run_select_name. by rewrite <- app_assoc.
Qed.

(** X3. Over a valid range [LookupFilterHashRange] sends one point query per
    block of the window, from the stop block downwards, and nothing else;
    on a well-formed chain these are [stop height - start height + 1]
    queries. *)
Theorem LookupFilterHashRange_queries start_height stop_index
    (hashes_out : list uint256) w :
  0 <= start_height <= nHeight stop_index ->
  is_Some (table_of w) ->
  executed (snd (LookupFilterHashRange start_height stop_index hashes_out w)) =
    executed w ++
    (hash_query (m_filter_name (this w)) <$> window start_height stop_index) /\
  (well_formed stop_index = true ->
   length (window start_height stop_index) =
     Z.to_nat (nHeight stop_index - start_height + 1)).
Proof.
  intros [Hlo Hhi] Ht. split.
  - unfold LookupFilterHashRange.
    rewrite (proj2 (Z.ltb_ge start_height 0)) by lia.
    destruct (Z.gtb_spec start_height (nHeight stop_index)); [lia |].
    rewrite <- (LookupFilterHashRange_loop_executed start_height stop_index
                  hashes_out w Ht).
    destruct (LookupFilterHashRange_loop start_height stop_index hashes_out w)
      as [[r | f] w'] eqn:Hrun.
    + by rewrite (bind_returned _ _ _ _ _ Hrun).
    + by rewrite (bind_fault _ _ _ _ _ Hrun).
  - intros Hwf. apply window_length; [done | lia | lia].
Qed.

Lemma LookupFilterHashRange_queries_witness :
  0 <= 1 <= nHeight block_Y2 /\
  is_Some (table_of (index_on reorg_table)) /\
  executed (snd (LookupFilterHashRange 1 block_Y2 [] (index_on reorg_table))) =
    [SelectFilterHash "basic" 2 32; SelectFilterHash "basic" 1 22].
Proof.
  assert (0 <= 1 <= nHeight block_Y2) as H by (simpl; lia).
  assert (is_Some (table_of (index_on reorg_table))) as Ht
    by (rewrite table_of_index_on; eauto).
  split; [exact H |]. split; [exact Ht |].
  exact (proj1 (LookupFilterHashRange_queries 1 block_Y2 []
                  (index_on reorg_table) H Ht)).
Defined.

(** ** The bulk query and the map built from it *)

Lemma insert_desc_Permutation r rs : insert_desc r rs ≡ₚ r :: rs.
Proof.
  induction rs as [| r' rs IH]; simpl; [done |].
  destruct (row_first r' r); [| done].
  rewrite IH. apply perm_swap.
Qed.

Lemma order_by_height_desc_Permutation rs : order_by_height_desc rs ≡ₚ rs.
Proof.
  induction rs as [| r rs IH]; simpl; [done |].
  by rewrite insert_desc_Permutation, IH.
Qed.

(** The rows of the bulk query are the rows of the table whose height lies
    in the range. *)
Lemma select_height_between_elem t lo hi h x f :
  (h, x, f) ∈ select_height_between t lo hi <->
  exists r, r ∈ t /\ row_height r = Some h /\ lo <= h <= hi /\
            row_blockHash r = x /\ row_filter r = f.
Proof.
  unfold select_height_between.
  rewrite list_elem_of_fmap. setoid_rewrite order_by_height_desc_Permutation.
  setoid_rewrite list_elem_of_In. setoid_rewrite filter_In.
  setoid_rewrite <- list_elem_of_In. unfold height_between, height_key.
  split.
  - intros (r & [= -> -> ->] & Hr & Hb). exists r.
    destruct (row_height r) as [h' |]; [| done]. simpl. split_and!; try done; lia.
  - intros (r & Hr & Hh & Hb & <- & <-). exists r. rewrite Hh. simpl.
    split_and!; try done. lia.
Qed.

Lemma foldl_emplace_row_keeps ft rows : forall temp h bf,
  temp !! h = Some bf -> foldl (emplace_row ft) temp rows !! h = Some bf.
Proof.
  induction rows as [| [[h' x] f] rows IH]; intros temp h bf Hbf; simpl; [done |].
  apply IH. destruct (temp !! h') eqn:E; [done |].
  rewrite lookup_insert_ne; [done | congruence].
Qed.

Lemma foldl_emplace_row_some ft rows : forall temp h x f,
  (h, x, f) ∈ rows -> is_Some (foldl (emplace_row ft) temp rows !! h).
Proof.
  induction rows as [| [[h' x'] f'] rows IH]; intros temp h x f Hin; simpl.
  { by apply elem_of_nil in Hin. }
  apply elem_of_cons in Hin as [[= <- <- <-] | Hin]; [| by eapply IH].
  destruct (temp !! h) as [bf |] eqn:E.
  - exists bf. by apply foldl_emplace_row_keeps.
  - eexists. apply foldl_emplace_row_keeps, lookup_insert_eq.
Qed.

Lemma foldl_emplace_row_origin ft rows : forall temp h bf,
  foldl (emplace_row ft) temp rows !! h = Some bf ->
  temp !! h = Some bf \/
  exists x f, (h, x, f) ∈ rows /\ bf = mkBlockFilter ft x f.
Proof.
  induction rows as [| [[h' x'] f'] rows IH]; intros temp h bf; simpl; [by left |].
  intros [Hold | (x & f & Hin & ->)]%IH.
  - destruct (temp !! h') eqn:E; [by left |].
    destruct (decide (h' = h)) as [-> | Hne].
    + rewrite lookup_insert_eq in Hold. injection Hold as <-.
      right. exists x', f'. split; [left | done].
    + rewrite lookup_insert_ne in Hold by done. by left.
  - right. exists x, f. split; [by right | done].
Qed.

(** Every entry of [temp] is a row of the table at that height, within the
    range of the bulk query. *)
Lemma bulk_temp_origin ft t lo hi h bf :
  bulk_temp ft t lo hi !! h = Some bf ->
  exists r, r ∈ t /\ row_height r = Some h /\ lo <= h <= hi /\
            bf = mkBlockFilter ft (row_blockHash r) (row_filter r).
Proof.
  unfold bulk_temp. intros [Hempty | (x & f & Hin & ->)]%foldl_emplace_row_origin.
  { by rewrite lookup_empty in Hempty. }
  apply select_height_between_elem in Hin as (r & Hr & Hh & Hb & <- & <-).
  by exists r.
Qed.

(** Every height of the range that has a row has an entry in [temp]. *)
Lemma bulk_temp_some ft t lo hi r h :
  r ∈ t -> row_height r = Some h -> lo <= h <= hi ->
  is_Some (bulk_temp ft t lo hi !! h).
Proof.
  intros Hr Hh Hb. unfold bulk_temp.
  apply (foldl_emplace_row_some ft _ _ h (row_blockHash r) (row_filter r)).
  apply select_height_between_elem. by exists r.
Qed.

Lemma height_indexed_true t node :
  height_indexed t node = true <->
  exists r, r ∈ t /\ row_height r = Some (nHeight node) /\
            row_blockHash r = GetBlockHash node.
Proof.
  unfold height_indexed. rewrite existsb_exists.
  setoid_rewrite <- list_elem_of_In. split.
  - intros (r & Hr & H). exists r. destruct (row_height r) as [h |]; [| done].
    apply andb_true_iff in H as [->%Z.eqb_eq ->%Z.eqb_eq]. done.
  - intros (r & Hr & Hh & Hx). exists r. rewrite Hh, Hx, !Z.eqb_refl. done.
Qed.

(** A block the table does not hold under its own height is not found in
    [temp]. *)
Lemma find_hit_not_indexed ft t lo hi node :
  height_indexed t node = false ->
  find_hit (bulk_temp ft t lo hi) node = None.
Proof.
  intros Hno. unfold find_hit.
  destruct (bulk_temp ft t lo hi !! nHeight node) as [bf |] eqn:E; [| done].
  apply bulk_temp_origin in E as (r & Hr & Hh & _ & ->). simpl.
  destruct (Z.eqb_spec (row_blockHash r) (GetBlockHash node)) as [Hx | _]; [| done].
  assert (height_indexed t node = true) as Hyes
    by (apply height_indexed_true; by exists r).
  congruence.
Qed.

Lemma heights_unique t r1 r2 h :
  NoDup (omap row_height t) ->
  r1 ∈ t -> r2 ∈ t -> row_height r1 = Some h -> row_height r2 = Some h ->
  r1 = r2.
Proof.
  induction t as [| r t IH]; intros Hnd H1 H2 Hh1 Hh2.
  { by apply elem_of_nil in H1. }
  simpl in Hnd.
  apply elem_of_cons in H1 as [-> | H1]; apply elem_of_cons in H2 as [-> | H2].
  - done.
  - rewrite Hh1 in Hnd. apply NoDup_cons in Hnd as [Hnot _].
    exfalso. apply Hnot. apply list_elem_of_omap. by exists r2.
  - rewrite Hh2 in Hnd. apply NoDup_cons in Hnd as [Hnot _].
    exfalso. apply Hnot. apply list_elem_of_omap. by exists r1.
  - destruct (row_height r); [apply NoDup_cons in Hnd as [_ Hnd] |]; by apply IH.
Qed.

(** Under the dual-key invariant a block the table holds under its own
    height, within the range, is found in [temp]. *)
Lemma find_hit_indexed ft t lo hi node :
  dual_key_invariant t ->
  height_indexed t node = true -> lo <= nHeight node <= hi ->
  is_Some (find_hit (bulk_temp ft t lo hi) node).
Proof.
  intros [_ Hnd] (r & Hr & Hh & Hx)%height_indexed_true Hb.
  destruct (bulk_temp_some ft t lo hi r _ Hr Hh Hb) as [bf E].
  unfold find_hit. rewrite E.
  apply bulk_temp_origin in E as (r' & Hr' & Hh' & _ & ->). simpl.
  rewrite (heights_unique t r' r _ Hnd Hr' Hr Hh' Hh), Hx, Z.eqb_refl. eauto.
Qed.

(** ** [LookupFilterRange] in terms of the table *)

(** A block of the window that is found in [temp] is reached (the blocks
    before it take the fallback path) and the loop stays on it. *)
Lemma LookupFilterRange_loop_trapped start_height temp :
  forall node, misses temp start_height node = false ->
  forall fuel out w, is_Some (table_of w) ->
  fst (LookupFilterRange_loop fuel start_height (Some node) temp out w) =
    Fault OutOfFuel.
Proof.
  induction node as [h x | h x prev IH] using CBlockIndex_chain_ind;
    intros Hmiss [| fuel] out w [t Ht]; [done | | done |].
  - simpl in Hmiss.
    destruct (Z.leb_spec start_height h) as [Hle | Hgt]; [| done].
    destruct (find_hit temp _) as [hit |] eqn:Hhit; [| done].
    eapply LookupFilterRange_loop_hit_diverges; [simpl; lia | exact Hhit].
  - simpl in Hmiss.
    destruct (Z.leb_spec start_height h) as [Hle | Hgt]; [| done].
    destruct (find_hit temp _) as [hit |] eqn:Hhit.
    + eapply LookupFilterRange_loop_hit_diverges; [simpl; lia | exact Hhit].
    + simpl. rewrite (proj2 (Z.leb_le start_height h) Hle), Hhit.
      rewrite (bind_fst_returned _ _ _ _ (run_select_returned _ _ _ _ Ht)).
      apply IH; [done |]. exists t. by rewrite run_select_table_of.
Qed.

Lemma misses_not_indexed ft t lo hi start_height node :
  Forall (fun n => height_indexed t n = false) (window start_height node) ->
  misses (bulk_temp ft t lo hi) start_height node = true.
Proof.
  induction node as [h x | h x prev IH] using CBlockIndex_chain_ind; simpl;
    (destruct (start_height <=? h); [| done]);
    intros [Hno Hrest]%Forall_cons; by rewrite find_hit_not_indexed; auto.
Qed.

Lemma window_bounds start_height node n :
  well_formed node = true -> n ∈ window start_height node ->
  start_height <= nHeight n <= nHeight node.
Proof.
  induction node as [h x | h x prev IH] using CBlockIndex_chain_ind;
    intros Hwf; simpl;
    (destruct (Z.leb_spec start_height h); [| by intros ?%elem_of_nil]).
  - intros ->%list_elem_of_singleton. simpl. lia.
  - apply well_formed_step in Hwf as [-> Hwf].
    intros [-> | Hin]%elem_of_cons; [simpl; lia |].
    specialize (IH Hwf Hin). lia.
Qed.

Lemma misses_indexed ft t start_height stop_index :
  dual_key_invariant t -> well_formed stop_index = true ->
  Exists (fun n => height_indexed t n = true) (window start_height stop_index) ->
  misses (bulk_temp ft t start_height (nHeight stop_index))
    start_height stop_index = false.
Proof.
  intros Hinv Hwf Hex.
  assert (forall node,
    (forall n, n ∈ window start_height node ->
       start_height <= nHeight n <= nHeight stop_index) ->
    Exists (fun n => height_indexed t n = true) (window start_height node) ->
    misses (bulk_temp ft t start_height (nHeight stop_index))
      start_height node = false) as Hgen.
  { induction node as [h x | h x prev IH] using CBlockIndex_chain_ind; simpl;
      intros Hb; (destruct (start_height <=? h);
                  [| by intros ?%Exists_nil]);
      intros [Hyes | Hrest]%Exists_cons.
    - destruct (find_hit_indexed ft t start_height (nHeight stop_index) _
                  Hinv Hyes (Hb _ ltac:(left))) as [hit ->]. done.
    - by apply Exists_nil in Hrest.
    - destruct (find_hit_indexed ft t start_height (nHeight stop_index) _
                  Hinv Hyes (Hb _ ltac:(left))) as [hit ->]. done.
    - destruct (find_hit _ _); [done |].
      apply IH; [| done]. intros n Hn. apply Hb. by right. }
  apply Hgen; [| done]. intros n Hn. by apply (window_bounds _ stop_index).
Qed.

Lemma LookupFilterRange_indexed_diverges fuel start_height stop_index
    (filters_out : list BlockFilter) w t :
  table_of w = Some t ->
  dual_key_invariant t ->
  well_formed stop_index = true ->
  0 <= start_height <= nHeight stop_index ->
  Exists (fun n => height_indexed t n = true) (window start_height stop_index) ->
  fst (LookupFilterRange fuel start_height stop_index filters_out w) =
    Fault OutOfFuel.
Proof.
  intros Ht Hinv Hwf Hrange Hex.
  destruct (LookupFilterRange_valid fuel _ _ filters_out _ _ Hrange Ht)
    as (w' & Ht' & _ & ->).
  apply bind_fst_fault. apply LookupFilterRange_loop_trapped.
  - by apply misses_indexed.
  - by exists t.
Qed.

(** X4. Under the dual-key invariant, on a well-formed chain,
    [LookupFilterRange] over a valid range never returns once the table
    holds a block of the window under its own height: the loop finds it and
    stays on it. *)
Theorem LookupFilterRange_height_indexed_never_returns fuel start_height
    stop_index (filters_out : list BlockFilter) w t :
  table_of w = Some t ->
  dual_key_invariant t ->
  well_formed stop_index = true ->
  0 <= start_height <= nHeight stop_index ->
  Exists (fun n => height_indexed t n = true) (window start_height stop_index) ->
  fst (LookupFilterRange fuel start_height stop_index filters_out w) =
    Fault OutOfFuel.
Proof. apply LookupFilterRange_indexed_diverges. Qed.

Lemma LookupFilterRange_height_indexed_never_returns_witness :
  table_of (index_on reorg_table) = Some reorg_table /\
  dual_key_invariant reorg_table /\
  well_formed block_Y2 = true /\
  0 <= 1 <= nHeight block_Y2 /\
  Exists (fun n => height_indexed reorg_table n = true) (window 1 block_Y2) /\
  fst (LookupFilterRange 1000 1 block_Y2 [] (index_on reorg_table)) =
    Fault OutOfFuel.
Proof.
  assert (0 <= 1 <= nHeight block_Y2) as Hrange by (simpl; lia).
  assert (Exists (fun n => height_indexed reorg_table n = true)
            (window 1 block_Y2)) as Hex.
  { simpl. apply Exists_cons_tl, Exists_cons_hd. reflexivity. }
  split; [apply table_of_index_on |].
  split; [apply dual_key_invariant_reorg_table |].
  split; [reflexivity |]. split; [exact Hrange |]. split; [exact Hex |].
  exact (LookupFilterRange_height_indexed_never_returns 1000 1 block_Y2 []
           (index_on reorg_table) reorg_table (table_of_index_on _)
           dual_key_invariant_reorg_table eq_refl Hrange Hex).
Defined.

Lemma LookupFilterRange_loop_executed start_height temp :
  forall node, misses temp start_height node = true ->
  forall fuel out w, is_Some (table_of w) -> (chain_length node < fuel)%nat ->
  executed (snd (LookupFilterRange_loop fuel start_height (Some node) temp out w)) =
  executed w ++
  (fallback_query (m_filter_name (this w)) <$> window start_height node).
Proof.
  induction node as [h x | h x prev IH] using CBlockIndex_chain_ind;
    intros Hmiss [| fuel] out w [t Ht] Hfuel; simpl in Hfuel, Hmiss; try lia;
    simpl;
    (destruct (start_height <=? h); [| by rewrite app_nil_r]);
    (destruct (find_hit temp _); [done |]);
    rewrite (bind_fst_returned _ _ _ _ (run_select_returned _ _ _ _ Ht)).
  - destruct fuel; [lia |]. simpl. by rewrite run_select_executed.
  - rewrite IH; [| done | exists t; by rewrite run_select_table_of | lia].
    rewrite run_select_executed, run_select_name. by rewrite <- app_assoc.
Qed.

(** X5. When the table holds no block of the window under its own height
    (all of them are displaced or unknown) and the window does not start
    at the root, [LookupFilterRange] returns, given fuel for one round per
    block of the chain. It hands back the input vector followed by what the
    null-height point queries found, returns true exactly when that is
    empty, and has sent the bulk query and then one point query per block
    of the window. *)
Theorem LookupFilterRange_without_height_rows fuel start_height stop_index
    (filters_out : list BlockFilter) w t :
  table_of w = Some t ->
  well_formed stop_index = true ->
  1 <= start_height <= nHeight stop_index ->
  Forall (fun n => height_indexed t n = false) (window start_height stop_index) ->
  (chain_length stop_index < fuel)%nat ->
  let result :=
    filters_out ++
    walk_filters (m_filter_type (this w)) t start_height stop_index in
  let name := m_filter_name (this w) in
  fst (LookupFilterRange fuel start_height stop_index filters_out w) =
    Returned (Nat.eqb (length result) 0, result) /\
  executed (snd (LookupFilterRange fuel start_height stop_index filters_out w)) =
    executed w ++
    SelectHeightBetween name start_height (nHeight stop_index)
    :: (fallback_query name <$> window start_height stop_index).
Proof.
  intros Ht Hwf Hrange Hno Hfuel result name.
  pose proof (misses_not_indexed (m_filter_type (this w)) t start_height
                (nHeight stop_index) _ _ Hno) as Hmiss.
  split.
  - apply LookupFilterRange_returns; [done | done | done | done | lia].
  - unfold LookupFilterRange.
    rewrite (proj2 (Z.ltb_ge start_height 0)) by lia.
    destruct (Z.gtb_spec start_height (nHeight stop_index)); [lia |].
    rewrite (bind_fst_returned _ _ _ _ (run_select_returned _ _ _ _ Ht)).
    unfold bulk_temp in Hmiss.
    match goal with
    | |- context [(?m ≫= _) ?w'] =>
        pose proof (LookupFilterRange_loop_executed start_height _ stop_index
                      Hmiss fuel filters_out w'
                      ltac:(exists t; by rewrite run_select_table_of) Hfuel)
          as Hexec;
        destruct (m w') as [[r | f] w''] eqn:Hrun
    end.
    + rewrite (bind_returned _ _ _ _ _ Hrun).
      simpl in Hexec |- *.
      rewrite Hexec, run_select_executed, run_select_name.
      by rewrite <- app_assoc.
    + rewrite (bind_fault _ _ _ _ _ Hrun).
      simpl in Hexec |- *.
      rewrite Hexec, run_select_executed, run_select_name.
      by rewrite <- app_assoc.
Qed.

Lemma LookupFilterRange_without_height_rows_witness :
  table_of (index_on [row_X; row_Y2]) = Some [row_X; row_Y2] /\
  well_formed block_X = true /\
  1 <= 1 <= nHeight block_X /\
  Forall (fun n => height_indexed [row_X; row_Y2] n = false) (window 1 block_X) /\
  (chain_length block_X < 3)%nat /\
  fst (LookupFilterRange 3 1 block_X [] (index_on [row_X; row_Y2])) =
    Returned (false, [filter_X]) /\
  executed (snd (LookupFilterRange 3 1 block_X [] (index_on [row_X; row_Y2]))) =
    [SelectHeightBetween "basic" 1 1; SelectFilterByNullHeight "basic" 21].
Proof.
  assert (1 <= 1 <= nHeight block_X) as Hrange by (simpl; lia).
  assert (Forall (fun n => height_indexed [row_X; row_Y2] n = false)
            (window 1 block_X)) as Hno.
  { simpl. apply Forall_cons. split; [reflexivity | apply Forall_nil_2]. }
  assert (chain_length block_X < 3)%nat as Hfuel by (simpl; lia).
  split; [apply table_of_index_on |]. split; [reflexivity |].
  split; [exact Hrange |]. split; [exact Hno |]. split; [exact Hfuel |].
  exact (LookupFilterRange_without_height_rows 3 1 block_X []
           (index_on [row_X; row_Y2]) [row_X; row_Y2] (table_of_index_on _)
           eq_refl Hrange Hno Hfuel).
Defined.

(** ** What the point queries find *)

Lemma take_1_filter_none {A} (P : A -> bool) (l : list A) :
  existsb P l = false -> take 1 (List.filter P l) = [].
Proof.
  induction l as [| a l IH]; simpl; [done |].
  destruct (P a); simpl; [done | exact IH].
Qed.

Lemma take_1_filter_some {A} (P : A -> bool) (l : list A) :
  existsb P l = true ->
  exists a, a ∈ l /\ P a = true /\ take 1 (List.filter P l) = [a].
Proof.
  induction l as [| a l IH]; simpl; [done |].
  destruct (P a) eqn:Ha; simpl.
  - intros _. exists a. split; [left | done].
  - intros (b & Hb & HP & E)%IH. exists b. split; [by right | done].
Qed.

Lemma take_1_length {A} (l : list A) : (length (take 1 l) <= 1)%nat.
Proof. rewrite length_take. lia. Qed.

Lemma walk_hashes_length t start_height node :
  (length (walk_hashes t start_height node) <=
   length (window start_height node))%nat.
Proof.
  induction node as [h x | h x prev IH] using CBlockIndex_chain_ind; simpl;
    (destruct (start_height <=? h); [| done]);
    rewrite length_app; unfold select_filter_hash; rewrite length_fmap;
    match goal with |- context [take 1 ?l] => pose proof (take_1_length l) end;
    simpl; lia.
Qed.

(** X6. On a well-formed chain, for a window that does not start at the
    root, [LookupFilterHashRange] always returns. The vector it hands back
    is the one passed in followed by at most one hash per height of the
    window, and the return value is true exactly when that vector is
    empty. *)
Theorem LookupFilterHashRange_hands_back start_height stop_index
    (hashes_out : list uint256) w t :
  table_of w = Some t ->
  well_formed stop_index = true ->
  1 <= start_height <= nHeight stop_index ->
  exists found,
    fst (LookupFilterHashRange start_height stop_index hashes_out w) =
      Returned (Nat.eqb (length (hashes_out ++ found)) 0, hashes_out ++ found) /\
    Z.of_nat (length found) <= nHeight stop_index - start_height + 1.
Proof.
  intros Ht Hwf Hrange. exists (walk_hashes t start_height stop_index). split.
  - by apply LookupFilterHashRange_returns.
  - pose proof (walk_hashes_length t start_height stop_index) as Hlen.
    rewrite window_length in Hlen by (done || lia). lia.
Qed.

Lemma LookupFilterHashRange_hands_back_witness :
  table_of (index_on reorg_table) = Some reorg_table /\
  well_formed block_Y2 = true /\
  1 <= 1 <= nHeight block_Y2 /\
  exists found,
    fst (LookupFilterHashRange 1 block_Y2 [7] (index_on reorg_table)) =
      Returned (Nat.eqb (length ([7] ++ found)) 0, [7] ++ found) /\
    Z.of_nat (length found) <= nHeight block_Y2 - 1 + 1.
Proof.
  assert (1 <= 1 <= nHeight block_Y2) as Hrange by (simpl; lia).
  split; [apply table_of_index_on |]. split; [reflexivity |].
  split; [exact Hrange |].
  exact (LookupFilterHashRange_hands_back 1 block_Y2 [7] (index_on reorg_table)
           reorg_table (table_of_index_on _) eq_refl Hrange).
Defined.

Lemma found_hashes t (blocks : list CBlockIndex) :
  Forall (fun n => has_filter_hash t n = true) blocks ->
  exists rows,
    Forall2 (fun n r => r ∈ t /\ row_blockHash r = GetBlockHash n /\
                        (row_height r = None \/ row_height r = Some (nHeight n)))
      blocks rows /\
    mjoin ((fun n => select_filter_hash t (nHeight n) (GetBlockHash n)) <$> blocks) =
      row_filterHash <$> rows.
Proof.
  induction blocks as [| n blocks IH]; intros Hall.
  { exists []. split; [constructor | done]. }
  apply Forall_cons in Hall as [Hn Hall].
  destruct (IH Hall) as (rows & Hrows & E).
  apply take_1_filter_some in Hn as (r & Hr & HP & Hsel).
  exists (r :: rows). split.
  - constructor; [| done]. split; [done |].
    unfold height_or_null_and_hash in HP.
    destruct (row_height r) as [h |].
    + apply andb_true_iff in HP as [->%Z.eqb_eq ->%Z.eqb_eq]. eauto.
    + apply Z.eqb_eq in HP. eauto.
  - rewrite !fmap_cons, <- E. unfold select_filter_hash at 1. by rewrite Hsel.
Qed.

(** X7. When the table has a row for every block of the window, under the
    block's height or under a null height, [LookupFilterHashRange] hands
    back the filter hashes of those blocks in the order of the walk, the
    stop block first and one height lower at every step, and returns
    false. *)
Theorem LookupFilterHashRange_complete_window start_height stop_index w t :
  table_of w = Some t ->
  well_formed stop_index = true ->
  1 <= start_height <= nHeight stop_index ->
  Forall (fun n => has_filter_hash t n = true) (window start_height stop_index) ->
  exists rows,
    fst (LookupFilterHashRange start_height stop_index [] w) =
      Returned (false, row_filterHash <$> rows) /\
    Forall2 (fun n r => r ∈ t /\ row_blockHash r = GetBlockHash n /\
                        (row_height r = None \/ row_height r = Some (nHeight n)))
      (window start_height stop_index) rows /\
    nHeight <$> window start_height stop_index =
      (fun i => nHeight stop_index - Z.of_nat i)
        <$> seq 0 (Z.to_nat (nHeight stop_index - start_height + 1)).
Proof.
  intros Ht Hwf Hrange Hall.
  destruct (found_hashes t _ Hall) as (rows & Hrows & E).
  exists rows. split; [| split; [done | apply window_heights; done || lia]].
  rewrite (LookupFilterHashRange_returns t) by done. simpl.
  rewrite window_walk_hashes, E.
  pose proof (Forall2_length _ _ _ Hrows) as Hlen.
  rewrite window_length in Hlen by (done || lia).
  rewrite length_fmap. destruct rows; [simpl in Hlen; lia | done].
Qed.

Lemma LookupFilterHashRange_complete_window_witness :
  table_of (index_on reorg_table) = Some reorg_table /\
  well_formed block_Y2 = true /\
  1 <= 1 <= nHeight block_Y2 /\
  Forall (fun n => has_filter_hash reorg_table n = true) (window 1 block_Y2) /\
  exists rows,
    fst (LookupFilterHashRange 1 block_Y2 [] (index_on reorg_table)) =
      Returned (false, row_filterHash <$> rows).
Proof.
  assert (1 <= 1 <= nHeight block_Y2) as Hrange by (simpl; lia).
  assert (Forall (fun n => has_filter_hash reorg_table n = true)
            (window 1 block_Y2)) as Hall.
  { simpl. repeat (apply Forall_cons; split; [reflexivity |]). apply Forall_nil_2. }
  split; [apply table_of_index_on |]. split; [reflexivity |].
  split; [exact Hrange |]. split; [exact Hall |].
  destruct (LookupFilterHashRange_complete_window 1 block_Y2
              (index_on reorg_table) reorg_table (table_of_index_on _)
              eq_refl Hrange Hall) as (rows & Hrun & _).
  exists rows. exact Hrun.
Defined.

(** ** What a true return means *)

(** X8. On a well-formed chain a range lookup returns true only with an
    empty vector: the vector it hands back is empty, and so was the one it
    was given. A caller that passes a vector with elements in it never
    gets true. *)
Theorem range_lookup_true_means_empty fuel start_height stop_index
    (filters_out filters : list BlockFilter) (hashes_out hashes : list uint256) w :
  well_formed stop_index = true ->
  (fst (LookupFilterRange fuel start_height stop_index filters_out w) =
     Returned (true, filters) ->
   filters_out = [] /\ filters = []) /\
  (fst (LookupFilterHashRange start_height stop_index hashes_out w) =
     Returned (true, hashes) ->
   hashes_out = [] /\ hashes = []).
Proof.
  intros Hwf. split.
  - unfold LookupFilterRange.
    destruct (start_height <? 0); [done |].
    destruct (Z.gtb_spec start_height (nHeight stop_index)) as [| Hhi]; [done |].
    destruct (table_of w) as [t |] eqn:Ht.
    + rewrite (bind_fst_returned _ _ _ _ (run_select_returned _ _ _ _ Ht)).
      match goal with
      | |- context [(?m ≫= _) ?w'] =>
          destruct (m w') as [[[out' stop] | f0] w''] eqn:Hrun
      end.
      * rewrite (bind_returned _ _ _ _ _ Hrun). simpl.
        apply (f_equal fst) in Hrun.
        apply LookupFilterRange_loop_returned in Hrun as [Hstop Hlen];
          [| done | lia].
        rewrite (size_eq_int_below _ _ _ Hstop).
        intros [= Hzero <-]. apply eqb_length_nil in Hzero as ->.
        split; [| done]. destruct filters_out; [done | simpl in Hlen; lia].
      * by rewrite (bind_fault _ _ _ _ _ Hrun).
    + by rewrite (bind_fst_fault _ _ _ _ (run_select_missing _ _ _ Ht)).
  - unfold LookupFilterHashRange.
    destruct (start_height <? 0); [done |].
    destruct (Z.gtb_spec start_height (nHeight stop_index)) as [| Hhi]; [done |].
    destruct (LookupFilterHashRange_loop start_height stop_index hashes_out w)
      as [[[out' stop] | f0] w''] eqn:Hrun.
    + rewrite (bind_returned _ _ _ _ _ Hrun). simpl.
      apply (f_equal fst) in Hrun.
      apply LookupFilterHashRange_loop_returned in Hrun as [Hstop Hlen];
        [| done | lia].
      rewrite (size_eq_int_below _ _ _ Hstop).
      intros [= Hzero <-]. apply eqb_length_nil in Hzero as ->.
      split; [| done]. destruct hashes_out; [done | simpl in Hlen; lia].
    + by rewrite (bind_fault _ _ _ _ _ Hrun).
Qed.

Lemma range_lookup_true_means_empty_witness :
  well_formed block_Z = true /\
  fst (LookupFilterHashRange 1 block_Z [] (index_on reorg_table)) =
    Returned (true, []) /\
  (@nil uint256 = [] /\ @nil uint256 = []).
Proof.
  assert (fst (LookupFilterHashRange 1 block_Z [] (index_on reorg_table)) =
            Returned (true, [])) as Hrun by reflexivity.
  split; [reflexivity |]. split; [exact Hrun |].
  exact (proj2 (range_lookup_true_means_empty 0 1 block_Z [] [] [] []
                  (index_on reorg_table) eq_refl) Hrun).
Defined.

(** ** The single lookups in terms of the table *)

Lemma window_single node :
  well_formed node = true -> window (nHeight node) node = [node].
Proof.
  destruct node as [h x [prev |]]; intros Hwf; simpl.
  - apply well_formed_step in Hwf as [-> Hwf].
    rewrite Z.leb_refl. f_equal.
    destruct prev as [h' x' prev']; simpl.
    by rewrite (proj2 (Z.leb_gt (h' + 1) h')) by lia.
  - by rewrite Z.leb_refl.
Qed.

Lemma well_formed_root_height node :
  well_formed node = true -> nHeight node = 0 -> pprev node = None.
Proof.
  destruct node as [h x [prev |]]; [| done].
  intros [-> Hwf]%well_formed_step. pose proof (well_formed_nonneg _ Hwf).
  simpl. lia.
Qed.

(** X9. What [LookupFilter] does, under the dual-key invariant and on a
    well-formed chain, given fuel for the walk. For a block the table holds
    under its own height the call never returns. Otherwise, for the root it
    reads [nHeight] through the null [pprev]; for another block it answers
    not-found when the table holds the block under a null height, and reads
    [filters[0]] of an empty vector when the table does not hold the block
    at all. *)
Theorem LookupFilter_outcome fuel block_index w t :
  table_of w = Some t ->
  dual_key_invariant t ->
  well_formed block_index = true ->
  (chain_length block_index < fuel)%nat ->
  fst (LookupFilter fuel block_index w) =
    if height_indexed t block_index then Fault OutOfFuel
    else if nHeight block_index =? 0 then Fault NullDeref
    else if displaced t block_index then Returned None
    else Fault EmptyVectorIndex.
Proof.
  intros Ht Hinv Hwf Hfuel. unfold LookupFilter.
  pose proof (well_formed_nonneg _ Hwf) as Hh.
  destruct (height_indexed t block_index) eqn:Hidx.
  { apply bind_fst_fault.
    apply (LookupFilterRange_indexed_diverges _ _ _ _ _ t);
      [done | done | done | lia |].
    rewrite window_single by done. by apply Exists_cons_hd. }
  assert (Forall (fun n => height_indexed t n = false)
            (window (nHeight block_index) block_index)) as Hno.
  { rewrite window_single by done. by apply Forall_cons. }
  destruct (Z.eqb_spec (nHeight block_index) 0) as [Hroot | Hnonroot].
  { apply bind_fst_fault. rewrite Hroot.
    apply (LookupFilterRange_null _ _ _ _ t);
      [by apply well_formed_reaches_root | done | | done].
    apply misses_not_indexed. by rewrite <- Hroot. }
  rewrite (bind_fst_returned _ _ _ _
             (LookupFilterRange_returns fuel (nHeight block_index) block_index
                [] w t ltac:(lia) Hwf Ht
                (misses_not_indexed _ _ _ _ _ _ Hno) ltac:(lia))).
  simpl. rewrite window_walk_filters, window_single by done. simpl.
  rewrite app_nil_r. unfold select_filter_by_null_height.
  destruct (displaced t block_index) eqn:Hd.
  - apply take_1_filter_some in Hd as (r & _ & _ & ->). done.
  - apply take_1_filter_none in Hd as ->. done.
Qed.

Lemma LookupFilter_outcome_witness :
  table_of (index_on reorg_table) = Some reorg_table /\
  dual_key_invariant reorg_table /\
  well_formed block_X = true /\
  (chain_length block_X < 3)%nat /\
  fst (LookupFilter 3 block_X (index_on reorg_table)) = Returned None.
Proof.
  assert (chain_length block_X < 3)%nat as Hfuel by (simpl; lia).
  split; [apply table_of_index_on |].
  split; [apply dual_key_invariant_reorg_table |].
  split; [reflexivity |]. split; [exact Hfuel |].
  exact (LookupFilter_outcome 3 block_X (index_on reorg_table) reorg_table
           (table_of_index_on _) dual_key_invariant_reorg_table eq_refl Hfuel).
Defined.

(** X10. What [LookupFilterHeader] does on a well-formed chain. For the
    root it reads [nHeight] through the null [pprev]; for another block it
    answers not-found when the table has a row for the block (under its
    height or under a null height), and reads [filters[0]] of an empty
    vector when it has none. *)
Theorem LookupFilterHeader_outcome block_index w t :
  table_of w = Some t ->
  well_formed block_index = true ->
  fst (LookupFilterHeader block_index w) =
    if nHeight block_index =? 0 then Fault NullDeref
    else if has_filter_hash t block_index then Returned None
    else Fault EmptyVectorIndex.
Proof.
  intros Ht Hwf. unfold LookupFilterHeader.
  pose proof (well_formed_nonneg _ Hwf) as Hh.
  destruct (Z.eqb_spec (nHeight block_index) 0) as [Hroot | Hnonroot].
  { apply bind_fst_fault. rewrite Hroot.
    apply LookupFilterHashRange_null;
      [by apply well_formed_reaches_root | by exists t]. }
  rewrite (bind_fst_returned _ _ _ _
             (LookupFilterHashRange_returns t (nHeight block_index) block_index
                [] w ltac:(lia) Hwf Ht)).
  simpl. rewrite window_walk_hashes, window_single by done. simpl.
  rewrite app_nil_r. unfold select_filter_hash.
  destruct (has_filter_hash t block_index) eqn:Hd.
  - apply take_1_filter_some in Hd as (r & _ & _ & ->). done.
  - apply take_1_filter_none in Hd as ->. done.
Qed.

Lemma LookupFilterHeader_outcome_witness :
  table_of (index_on reorg_table) = Some reorg_table /\
  well_formed block_Y = true /\
  fst (LookupFilterHeader block_Y (index_on reorg_table)) = Returned None.
Proof.
  split; [apply table_of_index_on |]. split; [reflexivity |].
  exact (LookupFilterHeader_outcome block_Y (index_on reorg_table) reorg_table
           (table_of_index_on _) eq_refl).
Defined.

(** ** Opening the database again *)

Lemma tables_after_again name f_wipe tables :
  tables_after name false (tables_after name f_wipe tables) =
  tables_after name f_wipe tables.
Proof.
  unfold tables_after. rewrite lookup_insert_eq. simpl.
  by rewrite insert_insert_eq.
Qed.

(** X11. Opening the database file a second time without the wipe flag is
    a no-op on the data: the second constructor leaves the file as the
    first left it, and the tables the second object sees are those of the
    first, whatever the cache sizes and whether or not the first one
    wiped. *)
Theorem constructor_reopen (BlockFilterTypeName : BlockFilterType -> string)
    filter_type n_cache_size n_cache_size' f_wipe file :
  BlockFilterTypeName filter_type <> EmptyString ->
  let first :=
    BlockFilterIndex_new BlockFilterTypeName filter_type n_cache_size
      false f_wipe file in
  let second :=
    BlockFilterIndex_new BlockFilterTypeName filter_type n_cache_size'
      false false (snd first) in
  exists index index',
    fst first = Returned index /\
    fst second = Returned index' /\
    snd second = snd first /\
    db_tables (db index') = db_tables (db index).
Proof.
  intros Hname first second. subst first second.
  rewrite (BlockFilterIndex_new_known _ _ n_cache_size false f_wipe file Hname).
  simpl.
  rewrite (BlockFilterIndex_new_known _ _ n_cache_size' false false _ Hname).
  simpl. do 2 eexists. split; [done |]. split; [done |]. simpl.
  by rewrite tables_after_again.
Qed.

Lemma constructor_reopen_witness :
  basic_only 0 <> EmptyString /\
  exists index index',
    fst (BlockFilterIndex_new basic_only 0 4096 false true
           {[ "basic" := reorg_table ]}) = Returned index /\
    fst (BlockFilterIndex_new basic_only 0 8192 false false
           (snd (BlockFilterIndex_new basic_only 0 4096 false true
                   {[ "basic" := reorg_table ]}))) = Returned index' /\
    db_tables (db index') = db_tables (db index).
Proof.
  assert (basic_only 0 <> EmptyString) as Hname by discriminate.
  split; [exact Hname |].
  destruct (constructor_reopen basic_only 0 4096 8192 true
              {[ "basic" := reorg_table ]} Hname)
    as (index & index' & H1 & H2 & _ & H3).
  exists index, index'. split; [exact H1 |]. split; [exact H2 | exact H3].
Defined.

(** X12. An in-memory instance never touches the database file, and it
    starts from a private database that holds nothing but its own empty
    table, with or without the wipe flag. *)
Theorem constructor_in_memory (BlockFilterTypeName : BlockFilterType -> string)
    filter_type n_cache_size f_wipe file :
  let r := BlockFilterIndex_new BlockFilterTypeName filter_type n_cache_size
             true f_wipe file in
  snd r = file /\
  forall index, fst r = Returned index ->
    db_tables (db index) = {[ m_filter_name index := [] ]}.
Proof.
  intros r. subst r.
  destruct (decide (BlockFilterTypeName filter_type = EmptyString)) as [E | Hname].
  - rewrite (BlockFilterIndex_new_unknown _ _ _ _ _ _ E). by split.
  - rewrite (BlockFilterIndex_new_known _ _ n_cache_size true f_wipe file Hname).
    simpl. split; [done |]. intros index [= <-]. simpl.
    unfold tables_after. rewrite lookup_empty. simpl.
    by destruct f_wipe.
Qed.

Lemma constructor_in_memory_witness :
  snd (BlockFilterIndex_new basic_only 0 4096 true false
         {[ "basic" := reorg_table ]}) = {[ "basic" := reorg_table ]} /\
  exists index,
    fst (BlockFilterIndex_new basic_only 0 4096 true false
           {[ "basic" := reorg_table ]}) = Returned index /\
    db_tables (db index) = {[ m_filter_name index := [] ]}.
Proof.
  destruct (constructor_in_memory basic_only 0 4096 false
              {[ "basic" := reorg_table ]}) as [Hfile Htables].
  split; [exact Hfile |].
  eexists. split; [reflexivity |]. apply Htables. reflexivity.
Defined.

Lemma walk_hashes_empty_table start_height node :
  walk_hashes [] start_height node = [].
Proof.
  induction node as [h x | h x prev IH] using CBlockIndex_chain_ind; simpl;
    destruct (start_height <=? h); done.
Qed.

Lemma walk_filters_empty_table ft start_height node :
  walk_filters ft [] start_height node = [].
Proof.
  induction node as [h x | h x prev IH] using CBlockIndex_chain_ind; simpl;
    destruct (start_height <=? h); done.
Qed.

(** X13. On an object that was just constructed with the wipe flag, every
    range lookup over a valid window above the root of a well-formed chain
    returns true with an empty vector, and never fails for want of the
    table. *)
Theorem wiped_index_lookups (BlockFilterTypeName : BlockFilterType -> string)
    filter_type n_cache_size f_memory file index fuel start_height stop_index :
  fst (BlockFilterIndex_new BlockFilterTypeName filter_type n_cache_size
         f_memory true file) = Returned index ->
  well_formed stop_index = true ->
  1 <= start_height <= nHeight stop_index ->
  (chain_length stop_index < fuel)%nat ->
  fst (LookupFilterRange fuel start_height stop_index [] (world_of index)) =
    Returned (true, []) /\
  fst (LookupFilterHashRange start_height stop_index [] (world_of index)) =
    Returned (true, []).
Proof.
  intros Hnew Hwf Hrange Hfuel.
  assert (table_of (world_of index) = Some []) as Ht.
  { destruct (decide (BlockFilterTypeName filter_type = EmptyString))
      as [E | Hname].
    - by rewrite (BlockFilterIndex_new_unknown _ _ _ _ _ _ E) in Hnew.
    - rewrite (BlockFilterIndex_new_known _ _ n_cache_size f_memory true file
                 Hname) in Hnew.
      simpl in Hnew. injection Hnew as <-.
      unfold table_of, world_of, tables_after. simpl. apply lookup_insert_eq. }
  split.
  - rewrite (LookupFilterRange_returns fuel start_height stop_index []
               (world_of index) [] Hrange Hwf Ht); [| | lia].
    + by rewrite walk_filters_empty_table.
    + apply misses_not_indexed. by apply Forall_forall.
  - rewrite (LookupFilterHashRange_returns [] start_height stop_index []
               (world_of index) Hrange Hwf Ht).
    simpl. by rewrite walk_hashes_empty_table.
Qed.

Lemma wiped_index_lookups_witness :
  exists index,
    fst (BlockFilterIndex_new basic_only 0 4096 false true
           {[ "basic" := reorg_table ]}) = Returned index /\
    well_formed block_Y2 = true /\
    1 <= 1 <= nHeight block_Y2 /\
    (chain_length block_Y2 < 5)%nat /\
    fst (LookupFilterRange 5 1 block_Y2 [] (world_of index)) =
      Returned (true, []) /\
    fst (LookupFilterHashRange 1 block_Y2 [] (world_of index)) =
      Returned (true, []).
Proof.
  eexists.
  assert (1 <= 1 <= nHeight block_Y2) as Hrange by (simpl; lia).
  assert (chain_length block_Y2 < 5)%nat as Hfuel by (simpl; lia).
  split; [reflexivity |]. split; [reflexivity |].
  split; [exact Hrange |]. split; [exact Hfuel |].
  exact (wiped_index_lookups basic_only 0 4096 false
           {[ "basic" := reorg_table ]} _ 5 1 block_Y2
           eq_refl eq_refl Hrange Hfuel).
Defined.

(** ** Sequences of registry calls *)

(** X14. Registering a filter type that has a name and no instance, then
    unregistering it, returns true twice and gives back the map of
    instances there was before. Registering it once more on the database
    file, without the wipe flag, builds an instance that sees the tables the
    first one left in the file. *)
Theorem register_unregister_round_trip
    (BlockFilterTypeName : BlockFilterType -> string)
    (emplace_constructs_first : bool) filter_type n_cache_size n_cache_size'
    f_wipe g :
  BlockFilterTypeName filter_type <> EmptyString ->
  GetBlockFilterIndex filter_type g = None ->
  let registered :=
    InitBlockFilterIndex BlockFilterTypeName emplace_constructs_first
      filter_type n_cache_size false f_wipe g in
  let unregistered := DestroyBlockFilterIndex filter_type (snd registered) in
  let registered_again :=
    InitBlockFilterIndex BlockFilterTypeName emplace_constructs_first
      filter_type n_cache_size' false false (snd unregistered) in
  fst registered = Returned true /\
  fst unregistered = Returned true /\
  g_filter_indexes (snd unregistered) = g_filter_indexes g /\
  fst registered_again = Returned true /\
  exists index index',
    GetBlockFilterIndex filter_type (snd registered) = Some index /\
    GetBlockFilterIndex filter_type (snd registered_again) = Some index' /\
    db_tables (db index') = db_tables (db index).
Proof.
  intros Hname Hnone registered unregistered registered_again.
  subst registered_again unregistered registered.
  unfold InitBlockFilterIndex, DestroyBlockFilterIndex, GetBlockFilterIndex in *.
  destruct g as [indexes file]; simpl in *.
  rewrite Hnone.
  rewrite (BlockFilterIndex_new_known _ _ n_cache_size false f_wipe file Hname).
  simpl. rewrite lookup_insert_eq, lookup_delete_eq. simpl.
  rewrite (BlockFilterIndex_new_known _ _ n_cache_size' false false _ Hname).
  simpl. rewrite !lookup_insert_eq.
  split; [done |]. split; [done |].
  split; [by rewrite delete_insert_id |]. split; [done |].
  do 2 eexists. split; [done |]. split; [done |]. simpl.
  by rewrite tables_after_again.
Qed.

Lemma register_unregister_round_trip_witness :
  basic_only 0 <> EmptyString /\
  GetBlockFilterIndex 0 empty_registry = None /\
  fst (InitBlockFilterIndex basic_only true 0 4096 false true empty_registry) =
    Returned true /\
  g_filter_indexes
    (snd (DestroyBlockFilterIndex 0
            (snd (InitBlockFilterIndex basic_only true 0 4096 false true
                    empty_registry)))) =
    g_filter_indexes empty_registry.
Proof.
  assert (basic_only 0 <> EmptyString) as Hname by discriminate.
  assert (GetBlockFilterIndex 0 empty_registry = None) as Hnone by reflexivity.
  split; [exact Hname |]. split; [exact Hnone |].
  destruct (register_unregister_round_trip basic_only true 0 4096 4096 true
              empty_registry Hname Hnone) as (H1 & _ & H3 & _).
  split; [exact H1 | exact H3].
Defined.

(** X15. Once a filter type is registered, a second registration, with
    whatever arguments, returns false, and the instance a lookup returns is
    still the first one: same type and name, same connection with the same
    transaction state and executed statements. The tables it sees are the
    same too, with one exception: when both registrations are on the
    database file, [emplace] builds the second object before it looks for
    the key, and the second call carries the wipe flag, the table of that
    instance is empty afterwards. *)
Theorem register_twice_keeps_first
    (BlockFilterTypeName : BlockFilterType -> string)
    (emplace_constructs_first : bool) filter_type
    n_cache_size f_memory f_wipe n_cache_size' f_memory' f_wipe' g :
  BlockFilterTypeName filter_type <> EmptyString ->
  GetBlockFilterIndex filter_type g = None ->
  let registered :=
    InitBlockFilterIndex BlockFilterTypeName emplace_constructs_first
      filter_type n_cache_size f_memory f_wipe g in
  let registered_again :=
    InitBlockFilterIndex BlockFilterTypeName emplace_constructs_first
      filter_type n_cache_size' f_memory' f_wipe' (snd registered) in
  fst registered = Returned true /\
  fst registered_again = Returned false /\
  exists first again,
    GetBlockFilterIndex filter_type (snd registered) = Some first /\
    GetBlockFilterIndex filter_type (snd registered_again) = Some again /\
    m_filter_type again = m_filter_type first /\
    m_filter_name again = m_filter_name first /\
    db_in_transaction (db again) = db_in_transaction (db first) /\
    db_executed (db again) = db_executed (db first) /\
    db_in_memory (db again) = db_in_memory (db first) /\
    db_tables (db again) =
      if emplace_constructs_first && negb f_memory && negb f_memory' && f_wipe'
      then <[m_filter_name first := []]> (db_tables (db first))
      else db_tables (db first).
Proof.
  intros Hname Hnone registered registered_again.
  subst registered_again registered.
  unfold InitBlockFilterIndex, GetBlockFilterIndex in *.
  destruct g as [indexes file]; simpl in *.
  rewrite Hnone.
  rewrite (BlockFilterIndex_new_known _ _ n_cache_size f_memory f_wipe file Hname).
  simpl. rewrite lookup_insert_eq.
  rewrite (BlockFilterIndex_new_known _ _ n_cache_size' f_memory' f_wipe' _ Hname).
  split; [done |].
  destruct emplace_constructs_first; simpl.
  - split; [done |]. rewrite lookup_insert_eq. do 2 eexists.
    split; [done |]. split; [done |].
    destruct f_memory' ; [by destruct f_memory |].
    unfold see_file. simpl.
    destruct f_memory; simpl; [done |].
    split_and!; try done.
    destruct f_wipe'; [done |]. by rewrite tables_after_again.
  - split; [done |]. rewrite lookup_insert_eq. do 2 eexists.
    split; [done |]. split; [done |]. done.
Qed.

Lemma register_twice_keeps_first_witness :
  basic_only 0 <> EmptyString /\
  GetBlockFilterIndex 0 empty_registry = None /\
  fst (InitBlockFilterIndex basic_only true 0 0 false true
         (snd (InitBlockFilterIndex basic_only true 0 4096 false false
                 empty_registry))) = Returned false.
Proof.
  assert (basic_only 0 <> EmptyString) as Hname by discriminate.
  assert (GetBlockFilterIndex 0 empty_registry = None) as Hnone by reflexivity.
  split; [exact Hname |]. split; [exact Hnone |].
  destruct (register_twice_keeps_first basic_only true 0 4096 false false
              0 false true empty_registry Hname Hnone) as (_ & H2 & _).
  exact H2.
Defined.

(** X16. Registering a filter type without a name never returns true and
    changes neither the map of instances nor the database file, whether or
    not an instance is registered under that type. *)
Theorem register_unknown_changes_nothing
    (BlockFilterTypeName : BlockFilterType -> string)
    (emplace_constructs_first : bool) filter_type n_cache_size f_memory f_wipe g :
  BlockFilterTypeName filter_type = EmptyString ->
  let registered :=
    InitBlockFilterIndex BlockFilterTypeName emplace_constructs_first
      filter_type n_cache_size f_memory f_wipe g in
  fst registered <> Returned true /\ snd registered = g.
Proof.
  intros E registered. subst registered. unfold InitBlockFilterIndex.
  rewrite (BlockFilterIndex_new_unknown _ _ _ _ _ _ E).
  destruct g as [indexes file]; simpl.
  destruct (indexes !! filter_type); [destruct emplace_constructs_first |];
    by simpl.
Qed.

Lemma register_unknown_changes_nothing_witness :
  basic_only 7 = EmptyString /\
  fst (InitBlockFilterIndex basic_only true 7 4096 false true basic_registered)
    <> Returned true /\
  snd (InitBlockFilterIndex basic_only true 7 4096 false true basic_registered) =
    basic_registered.
Proof.
  split; [reflexivity |].
  exact (register_unknown_changes_nothing basic_only true 7 4096 false true
           basic_registered eq_refl).
Defined.

(** ** Visiting the registry *)

#[local] Instance key_le_trans : Transitive key_le.
Proof. intros a b c. unfold key_le. lia. Qed.

#[local] Instance key_le_total : Total key_le.
Proof. intros a b. unfold key_le. lia. Qed.

Lemma entries_by_type_Permutation (indexes : gmap Z BlockFilterIndex) :
  entries_by_type indexes ≡ₚ map_to_list indexes.
Proof. apply merge_sort_Permutation. Qed.

Lemma entries_by_type_sorted (indexes : gmap Z BlockFilterIndex) :
  StronglySorted key_le (entries_by_type indexes).
Proof. apply (StronglySorted_merge_sort key_le). Qed.

Lemma entries_by_type_elem (indexes : gmap Z BlockFilterIndex) k index :
  (k, index) ∈ entries_by_type indexes <-> indexes !! k = Some index.
Proof.
  rewrite entries_by_type_Permutation. apply elem_of_map_to_list.
Qed.

Lemma entries_by_type_NoDup (indexes : gmap Z BlockFilterIndex) :
  NoDup (fst <$> entries_by_type indexes).
Proof.
  rewrite entries_by_type_Permutation. apply NoDup_fst_map_to_list.
Qed.

Lemma visit_entries_pure {S} (fn : M (BlockFilterIndex * S) unit)
    (f : BlockFilterIndex -> BlockFilterIndex) (step : BlockFilterIndex -> S -> S)
    entries :
  (forall index s, fn (index, s) = (Returned (), (f index, step index s))) ->
  forall (m : gmap Z BlockFilterIndex) s,
  visit_entries fn entries (m, s) =
  (Returned (),
   (foldl (fun m e => <[fst e := f (snd e)]> m) m entries,
    foldl (fun s e => step (snd e) s) s entries)).
Proof.
  intros Hfn. induction entries as [| [k index] rest IH]; intros m s; simpl;
    [done |].
  rewrite Hfn. simpl. apply IH.
Qed.

Lemma foldl_insert_other (f : BlockFilterIndex -> BlockFilterIndex)
    (entries : list (Z * BlockFilterIndex)) :
  forall (m : gmap Z BlockFilterIndex) k,
  k ∉ fst <$> entries ->
  foldl (fun m e => <[fst e := f (snd e)]> m) m entries !! k = m !! k.
Proof.
  induction entries as [| [k' index] rest IH]; intros m k Hk; simpl; [done |].
  rewrite fmap_cons in Hk. apply not_elem_of_cons in Hk as [Hne Hk]. simpl in Hne.
  rewrite IH by done. by rewrite lookup_insert_ne.
Qed.

Lemma foldl_insert_entry (f : BlockFilterIndex -> BlockFilterIndex)
    (entries : list (Z * BlockFilterIndex)) :
  forall (m : gmap Z BlockFilterIndex) k index,
  NoDup (fst <$> entries) -> (k, index) ∈ entries ->
  foldl (fun m e => <[fst e := f (snd e)]> m) m entries !! k = Some (f index).
Proof.
  induction entries as [| [k' index'] rest IH]; intros m k index Hnd Hin; simpl.
  { by apply elem_of_nil in Hin. }
  rewrite fmap_cons in Hnd. apply NoDup_cons in Hnd as [Hfresh Hnd].
  apply elem_of_cons in Hin as [[= -> ->] | Hin].
  - rewrite foldl_insert_other by done. apply lookup_insert_eq.
  - by apply IH.
Qed.

(** X18. A visitor that does not throw is applied to every registered
    instance exactly once, in ascending order of filter type: with [f] its
    effect on the instance and [step] its effect on what else it captured,
    the registry ends up with [f] applied to every instance, and the
    captured state with [step] folded over the instances in that order. *)
Theorem ForEachBlockFilterIndex_visits_all {S}
    (fn : M (BlockFilterIndex * S) unit)
    (f : BlockFilterIndex -> BlockFilterIndex) (step : BlockFilterIndex -> S -> S)
    (g : Globals) (s : S) :
  (forall index s, fn (index, s) = (Returned (), (f index, step index s))) ->
  let visited := entries_by_type (g_filter_indexes g) in
  ForEachBlockFilterIndex fn (g, s) =
    (Returned (),
     ({| g_filter_indexes := f <$> g_filter_indexes g;
         block_filter_sqlite := block_filter_sqlite g |},
      foldl (fun s e => step (snd e) s) s visited)) /\
  StronglySorted key_le visited /\
  NoDup (fst <$> visited) /\
  (forall k index, (k, index) ∈ visited <-> GetBlockFilterIndex k g = Some index).
Proof.
  intros Hfn visited. split; [| split; [| split]].
  - unfold ForEachBlockFilterIndex. simpl.
    rewrite (visit_entries_pure fn f step _ Hfn). simpl. do 3 f_equal.
    apply map_eq. intros k. rewrite lookup_fmap.
    destruct (g_filter_indexes g !! k) as [index |] eqn:E; simpl.
    + apply foldl_insert_entry; [apply entries_by_type_NoDup |].
      by apply entries_by_type_elem.
    + rewrite foldl_insert_other; [done |].
      intros ([k' index] & -> & Hin)%list_elem_of_fmap.
      apply entries_by_type_elem in Hin. simpl in E. congruence.
  - apply entries_by_type_sorted.
  - apply entries_by_type_NoDup.
  - intros k index. apply entries_by_type_elem.
Qed.

Lemma ForEachBlockFilterIndex_visits_all_witness :
  (forall index s,
     collect_names (index, s) =
     (Returned (), (id index, m_filter_name index :: s))) /\
  snd (snd (ForEachBlockFilterIndex collect_names (two_registered, []))) =
    ["extended"; "basic"].
Proof.
  assert (forall index s,
            collect_names (index, s) =
            (Returned (), (id index, m_filter_name index :: s)))
    as Hfn by reflexivity.
  split; [exact Hfn |].
  destruct (ForEachBlockFilterIndex_visits_all collect_names id
              (fun index s => m_filter_name index :: s) two_registered [] Hfn)
    as [Hrun _].
  rewrite Hrun. reflexivity.
Defined.

(** ** The read through the null parent *)

(** Past the range checks a range lookup is its loop followed by the final
    check. *)
Lemma LookupFilterHashRange_loop_then_check start_height stop_index
    (hashes_out : list uint256) :
  0 <= start_height <= nHeight stop_index ->
  LookupFilterHashRange start_height stop_index hashes_out =
  (r ← LookupFilterHashRange_loop start_height stop_index hashes_out;
   ret (completeness_check start_height r)).
Proof.
  intros [Hlo Hhi]. unfold LookupFilterHashRange.
  rewrite (proj2 (Z.ltb_ge start_height 0)) by lia.
  by destruct (Z.gtb_spec start_height (nHeight stop_index)); [lia |].
Qed.

Lemma LookupFilterRange_loop_then_check fuel start_height stop_index
    (filters_out : list BlockFilter) w t :
  0 <= start_height <= nHeight stop_index ->
  table_of w = Some t ->
  exists w',
    table_of w' = Some t /\
    LookupFilterRange fuel start_height stop_index filters_out w =
    (r ← LookupFilterRange_loop fuel start_height (Some stop_index)
           (bulk_temp (m_filter_type (this w)) t start_height
              (nHeight stop_index)) filters_out;
     ret (completeness_check start_height r)) w'.
Proof.
  intros Hrange Ht.
  destruct (LookupFilterRange_valid fuel _ _ filters_out _ _ Hrange Ht)
    as (w' & Ht' & _ & E).
  by exists w'.
Qed.

(** A walk that no block stops before the root hands nothing over to the
    final check, whatever the table, the map and the fuel. *)
Lemma LookupFilterHashRange_loop_never_returns start_height :
  forall node, reaches_root start_height node = true ->
  forall out w r,
  fst (LookupFilterHashRange_loop start_height node out w) <> Returned r.
Proof.
  induction node as [h x | h x prev IH] using CBlockIndex_chain_ind;
    intros Hreach out w r; simpl in Hreach; simpl;
    apply andb_true_iff in Hreach as [-> Hreach];
    (destruct (table_of w) as [t |] eqn:Ht;
     [rewrite (bind_fst_returned _ _ _ _ (run_select_returned _ _ _ _ Ht))
     | by rewrite (bind_fst_fault _ _ _ _ (run_select_missing _ _ _ Ht))]).
  - done.
  - by apply IH.
Qed.

Lemma LookupFilterRange_loop_never_returns start_height :
  forall fuel node, reaches_root start_height node = true ->
  forall temp out w r,
  fst (LookupFilterRange_loop fuel start_height (Some node) temp out w) <>
    Returned r.
Proof.
  induction fuel as [| fuel IH]; intros node Hreach temp out w r; simpl; [done |].
  pose proof Hreach as Hnode.
  destruct node as [h x prev]; simpl in Hreach |- *.
  apply andb_true_iff in Hreach as [-> Hreach].
  destruct (find_hit temp _) as [hit |]; [by apply IH |].
  destruct (table_of w) as [t |] eqn:Ht.
  - rewrite (bind_fst_returned _ _ _ _ (run_select_returned _ _ _ _ Ht)).
    destruct prev as [prev |]; [by apply IH | by destruct fuel].
  - by rewrite (bind_fst_fault _ _ _ _ (run_select_missing _ _ _ Ht)).
Qed.

(** C10, as stated, fails: it has the final check read [nHeight] through
    the parent of the root. The final check is applied to what the loop
    hands over, and from a start height of 0 neither loop hands anything
    over: on the chain genesis, X the walk steps from the root to its null
    [pprev] and the loop test that follows is the read that goes through
    it. The final check is never reached. *)
Lemma final_check_not_reached_from_root :
  ~ ((exists r,
        fst (LookupFilterHashRange_loop 0 block_X [] (index_on [row_X])) =
          Returned r) \/
     (exists fuel r,
        fst (LookupFilterRange_loop fuel 0 (Some block_X)
               (bulk_temp 0 [row_X] 0 1) [] (index_on [row_X])) = Returned r)).
Proof.
  intros [[r Hr] | (fuel & r & Hr)]; revert Hr.
  - by apply LookupFilterHashRange_loop_never_returns.
  - by apply LookupFilterRange_loop_never_returns.
Qed.

(** C10, amended. Past the range checks each range lookup is its loop
    followed by the final check. The loop steps past the block at the start
    height before the final check reads [stop_index->nHeight]: on a
    well-formed chain the block the check reads is the one just below the
    window, so the check compares the size with 0. For a start height of 0
    on a chain that no block stops before the root, the walk steps from the
    root to its [pprev], which is null, and it is the loop test that reads
    [nHeight] through it: the loop hands nothing over and the final check is
    not reached. The call ends in that read: always in
    [LookupFilterHashRange], and in [LookupFilterRange] when the table
    holds no block of the chain under its own height (given fuel for the
    walk). *)
Theorem null_parent_read_in_loop_test fuel start_height stop_index
    (filters_out : list BlockFilter) (hashes_out : list uint256) w t :
  table_of w = Some t ->
  (0 <= start_height <= nHeight stop_index ->
     LookupFilterHashRange start_height stop_index hashes_out =
       (r ← LookupFilterHashRange_loop start_height stop_index hashes_out;
        ret (completeness_check start_height r)) /\
     exists w',
       table_of w' = Some t /\
       LookupFilterRange fuel start_height stop_index filters_out w =
       (r ← LookupFilterRange_loop fuel start_height (Some stop_index)
              (bulk_temp (m_filter_type (this w)) t start_height
                 (nHeight stop_index)) filters_out;
        ret (completeness_check start_height r)) w') /\
  (well_formed stop_index = true -> start_height - 1 <= nHeight stop_index ->
     (forall out last,
        fst (LookupFilterHashRange_loop start_height stop_index hashes_out w) =
          Returned (out, last) ->
        nHeight last = start_height - 1 /\
        completeness_check start_height (out, last) =
          (Nat.eqb (length out) 0, out)) /\
     (forall temp out last,
        fst (LookupFilterRange_loop fuel start_height (Some stop_index) temp
               filters_out w) = Returned (out, last) ->
        nHeight last = start_height - 1 /\
        completeness_check start_height (out, last) =
          (Nat.eqb (length out) 0, out))) /\
  (reaches_root 0 stop_index = true ->
     (forall r,
        fst (LookupFilterHashRange_loop 0 stop_index hashes_out w) <>
          Returned r) /\
     (forall temp r,
        fst (LookupFilterRange_loop fuel 0 (Some stop_index) temp
               filters_out w) <> Returned r) /\
     fst (LookupFilterHashRange 0 stop_index hashes_out w) = Fault NullDeref /\
     (Forall (fun n => height_indexed t n = false) (window 0 stop_index) ->
      (chain_length stop_index < fuel)%nat ->
      fst (LookupFilterRange fuel 0 stop_index filters_out w) =
        Fault NullDeref)).
Proof.
  intros Ht. split_and!.
  - intros Hrange. split.
    + by apply LookupFilterHashRange_loop_then_check.
    + by apply LookupFilterRange_loop_then_check.
  - intros Hwf Hlow. split.
    + intros out last Hrun.
      apply LookupFilterHashRange_loop_returned in Hrun as [Hlast _];
        [| done | done].
      split; [done |]. unfold completeness_check. simpl.
      by rewrite (size_eq_int_below _ _ _ Hlast).
    + intros temp out last Hrun.
      apply LookupFilterRange_loop_returned in Hrun as [Hlast _];
        [| done | done].
      split; [done |]. unfold completeness_check. simpl.
      by rewrite (size_eq_int_below _ _ _ Hlast).
  - intros Hreach. split_and!.
    + intros r. by apply LookupFilterHashRange_loop_never_returns.
    + intros temp r. by apply LookupFilterRange_loop_never_returns.
    + apply LookupFilterHashRange_null; [done | by exists t].
    + intros Hno Hfuel. apply (LookupFilterRange_null _ _ _ _ t); try done.
      by apply misses_not_indexed.
Qed.

Lemma null_parent_read_in_loop_test_witness :
  table_of (index_on [row_X]) = Some [row_X] /\
  reaches_root 0 block_X = true /\
  Forall (fun n => height_indexed [row_X] n = false) (window 0 block_X) /\
  (chain_length block_X < 3)%nat /\
  fst (LookupFilterHashRange 0 block_X [] (index_on [row_X])) = Fault NullDeref /\
  fst (LookupFilterRange 3 0 block_X [] (index_on [row_X])) = Fault NullDeref /\
  well_formed block_X = true /\
  1 - 1 <= nHeight block_X /\
  completeness_check 1 ([121], genesis) = (false, [121]).
Proof.
  assert (table_of (index_on [row_X]) = Some [row_X]) as Ht
    by apply table_of_index_on.
  assert (reaches_root 0 block_X = true) as Hreach by reflexivity.
  assert (Forall (fun n => height_indexed [row_X] n = false) (window 0 block_X))
    as Hno.
  { simpl. repeat (apply Forall_cons; split; [reflexivity |]). apply Forall_nil_2. }
  assert (chain_length block_X < 3)%nat as Hfuel by (simpl; lia).
  assert (1 - 1 <= nHeight block_X) as Hlow by (simpl; lia).
  destruct (null_parent_read_in_loop_test 3 0 block_X [] []
              (index_on [row_X]) [row_X] Ht) as (_ & _ & Hnull).
  destruct (Hnull Hreach) as (_ & _ & Hhash & Hrange).
  destruct (null_parent_read_in_loop_test 3 1 block_X [] []
              (index_on [row_X]) [row_X] Ht) as (_ & Hpast & _).
  destruct (Hpast eq_refl Hlow) as [Hhashloop _].
  destruct (Hhashloop [121] genesis eq_refl) as [_ Hcheck].
  split_and!; try assumption. reflexivity.
Defined.

(** ** A visitor that throws *)

Lemma visit_entries_throw {S} (fn : M (BlockFilterIndex * S) unit)
    (f : BlockFilterIndex -> BlockFilterIndex) (step : BlockFilterIndex -> S -> S)
    (throws : BlockFilterIndex -> bool) flt before entry after :
  (forall index s,
     fn (index, s) =
     (if throws index then Fault flt else Returned (),
      (f index, step index s))) ->
  Forall (fun e => throws (snd e) = false) before ->
  throws (snd entry) = true ->
  forall (m : gmap Z BlockFilterIndex) s,
  visit_entries fn (before ++ entry :: after) (m, s) =
  (Fault flt,
   (foldl (fun m e => <[fst e := f (snd e)]> m) m (before ++ [entry]),
    foldl (fun s e => step (snd e) s) s (before ++ [entry]))).
Proof.
  intros Hfn Hbefore Hthrow.
  induction Hbefore as [| [k index] before Hok _ IH]; intros m s; simpl.
  - rewrite Hfn, Hthrow. done.
  - rewrite Hfn. simpl in Hok. rewrite Hok. simpl. apply IH.
Qed.

Lemma filter_all {A} (P : A -> bool) (l : list A) :
  Forall (fun a => P a = true) l -> List.filter P l = l.
Proof. induction 1 as [| a l Ha _ IH]; simpl; [done |]. by rewrite Ha, IH. Qed.

Lemma filter_none {A} (P : A -> bool) (l : list A) :
  Forall (fun a => P a = false) l -> List.filter P l = [].
Proof. induction 1 as [| a l Ha _ IH]; simpl; [done |]. by rewrite Ha. Qed.

(** The entries in visiting order, split at a registered filter type: the
    types before it are smaller, the types after it larger. *)
Lemma entries_by_type_split (indexes : gmap Z BlockFilterIndex) k0 index0 :
  indexes !! k0 = Some index0 ->
  exists before after,
    entries_by_type indexes = before ++ (k0, index0) :: after /\
    Forall (fun e => fst e < k0) before /\
    Forall (fun e => k0 < fst e) after.
Proof.
  intros Hk0. apply entries_by_type_elem in Hk0.
  apply list_elem_of_split in Hk0 as (before & after & E).
  exists before, after. split; [done |].
  pose proof (entries_by_type_sorted indexes) as Hsorted.
  pose proof (entries_by_type_NoDup indexes) as Hnd.
  rewrite E in Hsorted, Hnd. rewrite fmap_app, fmap_cons in Hnd. simpl in Hnd.
  apply NoDup_app in Hnd as (_ & Hdisj & Hnd).
  apply NoDup_cons in Hnd as [Hfresh _].
  split; apply Forall_forall; intros [k index] Hin; simpl.
  - assert (k <= k0) as Hle.
    { apply (StronglySorted_app_1_elem_of key_le _ _ (k, index) (k0, index0)
               Hsorted Hin). left. }
    assert (k <> k0); [| lia]. intros ->.
    apply (Hdisj k0); [| left]. apply list_elem_of_fmap. by exists (k0, index).
  - apply StronglySorted_app_1_r, StronglySorted_cons in Hsorted as [Hall _].
    rewrite Forall_forall in Hall. specialize (Hall _ Hin).
    unfold key_le in Hall. simpl in Hall.
    assert (k <> k0); [| lia]. intros ->.
    apply Hfresh. apply list_elem_of_fmap. by exists (k0, index).
Qed.

(** X17. A visitor that acts on the instance it is handed and on what it
    captured, and that throws on some instances: [ForEachBlockFilterIndex]
    ends with the exception of the first instance, in ascending order of
    filter type, on which the visitor throws. The instances up to and
    including that one hold what the visitor left in them, the instances
    of larger filter types are untouched and were not visited, and no
    filter type is added or removed. *)
Theorem ForEachBlockFilterIndex_stops_at_throw {S}
    (fn : M (BlockFilterIndex * S) unit)
    (f : BlockFilterIndex -> BlockFilterIndex) (step : BlockFilterIndex -> S -> S)
    (throws : BlockFilterIndex -> bool) flt (g : Globals) (s : S) k0 index0 :
  (forall index s,
     fn (index, s) =
     (if throws index then Fault flt else Returned (),
      (f index, step index s))) ->
  GetBlockFilterIndex k0 g = Some index0 ->
  throws index0 = true ->
  (forall k index,
     GetBlockFilterIndex k g = Some index -> k < k0 -> throws index = false) ->
  let r := ForEachBlockFilterIndex fn (g, s) in
  let reached :=
    List.filter (fun e => fst e <=? k0) (entries_by_type (g_filter_indexes g)) in
  fst r = Fault flt /\
  (forall k,
     GetBlockFilterIndex k (fst (snd r)) =
     (fun index => if k <=? k0 then f index else index)
       <$> GetBlockFilterIndex k g) /\
  snd (snd r) = foldl (fun s e => step (snd e) s) s reached.
Proof.
  intros Hfn Hk0 Hthrow Hfirst r reached. subst r reached.
  unfold GetBlockFilterIndex in *. unfold ForEachBlockFilterIndex. simpl.
  destruct (entries_by_type_split _ _ _ Hk0)
    as (before & after & E & Hbefore & Hafter).
  pose proof (entries_by_type_NoDup (g_filter_indexes g)) as Hnd.
  rewrite E in Hnd |- *.
  assert (Forall (fun e => throws (snd e) = false) before) as Hok.
  { apply Forall_forall. intros [k index] Hin.
    rewrite Forall_forall in Hbefore. specialize (Hbefore _ Hin).
    apply (Hfirst k); [| done].
    apply entries_by_type_elem. rewrite E. apply elem_of_app. by left. }
  rewrite (visit_entries_throw fn f step throws flt before (k0, index0) after
             Hfn Hok Hthrow).
  simpl. split; [done |]. split.
  - intros k.
    assert (NoDup (fst <$> before ++ [(k0, index0)])) as Hnd'.
    { rewrite fmap_app, fmap_cons in Hnd |- *.
      apply NoDup_app in Hnd as (Hnb & Hdisj & Hna).
      apply NoDup_app. split; [done |]. split.
      - intros x Hx Hx'. apply (Hdisj x Hx).
        apply list_elem_of_singleton in Hx' as ->. left.
      - apply NoDup_singleton. }
    destruct (g_filter_indexes g !! k) as [index |] eqn:Hk; simpl.
    + apply entries_by_type_elem in Hk. rewrite E in Hk.
      apply elem_of_app in Hk as [Hin | Hin].
      * rewrite Forall_forall in Hbefore. pose proof (Hbefore _ Hin) as Hlt.
        simpl in Hlt. rewrite (proj2 (Z.leb_le k k0)) by lia.
        apply foldl_insert_entry; [done |]. apply elem_of_app. by left.
      * apply elem_of_cons in Hin as [[= -> ->] | Hin].
        -- rewrite Z.leb_refl. apply foldl_insert_entry; [done |].
           apply elem_of_app. right. left.
        -- rewrite Forall_forall in Hafter. pose proof (Hafter _ Hin) as Hgt.
           simpl in Hgt. rewrite (proj2 (Z.leb_gt k k0)) by lia.
           rewrite foldl_insert_other.
           ++ apply entries_by_type_elem. rewrite E.
              apply elem_of_app. right. by right.
           ++ intros ([k' index'] & -> & Hin')%list_elem_of_fmap. simpl in Hgt.
              apply elem_of_app in Hin' as [Hin' | Hin'].
              ** rewrite Forall_forall in Hbefore.
                 specialize (Hbefore _ Hin'). simpl in Hbefore. lia.
              ** apply list_elem_of_singleton in Hin' as [= -> ->]. lia.
    + rewrite foldl_insert_other; [done |].
      intros ([k' index'] & -> & Hin')%list_elem_of_fmap.
      assert ((k', index') ∈ entries_by_type (g_filter_indexes g)) as Hin.
      { rewrite E. apply elem_of_app in Hin' as [Hin' | Hin'].
        - apply elem_of_app. by left.
        - apply list_elem_of_singleton in Hin' as ->.
          apply elem_of_app. right. left. }
      apply entries_by_type_elem in Hin.
      assert (Some index' = None) as Hc by (rewrite <- Hin; exact Hk).
      discriminate Hc.
  - f_equal. rewrite List.filter_app. simpl. rewrite Z.leb_refl.
    rewrite filter_all, filter_none; [done | |].
    + eapply Forall_impl; [exact Hafter |]. intros [k index] Hgt.
      simpl in *. apply Z.leb_gt. lia.
    + eapply Forall_impl; [exact Hbefore |]. intros [k index] Hlt.
      simpl in *. apply Z.leb_le. lia.
Qed.

Lemma ForEachBlockFilterIndex_stops_at_throw_witness :
  (forall index s,
     collect_names_until_extended (index, s) =
     (if String.eqb (m_filter_name index) "extended"
      then Fault (InvalidArgument "extended") else Returned (),
      (id index, m_filter_name index :: s))) /\
  (exists index,
     GetBlockFilterIndex 1 two_registered = Some index /\
     String.eqb (m_filter_name index) "extended" = true) /\
  fst (ForEachBlockFilterIndex collect_names_until_extended (two_registered, [])) =
    Fault (InvalidArgument "extended") /\
  snd (snd (ForEachBlockFilterIndex collect_names_until_extended
              (two_registered, []))) = ["extended"; "basic"].
Proof.
  assert (forall index s,
            collect_names_until_extended (index, s) =
            (if String.eqb (m_filter_name index) "extended"
             then Fault (InvalidArgument "extended") else Returned (),
             (id index, m_filter_name index :: s))) as Hfn by reflexivity.
  split; [exact Hfn |].
  split; [eexists; split; reflexivity |].
  destruct (ForEachBlockFilterIndex_stops_at_throw collect_names_until_extended
              id (fun index s => m_filter_name index :: s)
              (fun index => String.eqb (m_filter_name index) "extended")
              (InvalidArgument "extended") two_registered [] 1 _
              Hfn eq_refl eq_refl) as (Hfault & _ & Hstate).
  { intros k index Hk Hlt. unfold GetBlockFilterIndex, two_registered in Hk.
    simpl in Hk.
    destruct (decide (k = 0)) as [-> | Hne].
    - rewrite lookup_insert_ne in Hk by done.
      rewrite lookup_singleton_eq in Hk. by injection Hk as <-.
    - destruct (decide (k = 1)) as [-> | Hne']; [lia |].
      rewrite lookup_insert_ne in Hk by done.
      by rewrite lookup_singleton_ne in Hk. }
  split; [exact Hfault |]. rewrite Hstate. reflexivity.
Defined.
